(** * hugchat.message: the [Message] response reader

    A shallow embedding of [src/hugchat/message.py] and the properties of
    its event-stream state machine.

    The reader wraps a producer of decoded server events.  One call of
    [__next__] pulls one event, classifies it by its ["type"] entry, updates
    the reader and returns either the raw event or [None].  Failures are
    stored on the reader rather than raised; [wait_until_done] drives the
    reader to a terminal status and then returns the answer or raises the
    stored failure.  [send] and [throw] only hand their arguments to the
    producer and touch no field of the reader; they are not part of this
    development.

    The methods are studied on reader records, whatever way a record came
    to be.  The class statement, which would have to provide the
    constructor, is modelled apart ([class_body], [dataclass]). *)

From Stdlib Require Import ZArith List String Ascii Bool Lia DecimalString.
Import ListNotations.
Local Open Scope string_scope.
Local Open Scope Z_scope.
Set Warnings "-register-all".

(** ** Python values

    Events are what [json] decoding produces: [None], booleans, integers,
    text, lists and dicts with text keys.  A dict is kept as the list of its
    items in insertion order, which is the order [str] prints them in.
    Text is held as its UTF-8 bytes.  Floating-point numbers are left out. *)

Inductive pyval : Type :=
| PNone
| PBool (b : bool)
| PInt (z : Z)
| PStr (s : string)
| PList (l : list pyval)
| PDict (d : list (string * pyval)).

(** [d[k]] and [k in d] on the items of a dict. *)
Fixpoint lookup (k : string) (d : list (string * pyval)) : option pyval :=
  match d with
  | [] => None
  | (k', v) :: d' => if String.eqb k k' then Some v else lookup k d'
  end.

Definition has_key (k : string) (d : list (string * pyval)) : bool :=
  match lookup k d with Some _ => true | None => false end.

(** [v == s] for a text constant [s]: only text can be equal to text. *)
Definition eq_str (v : pyval) (s : string) : bool :=
  match v with
  | PStr s' => String.eqb s' s
  | _ => false
  end.

(** *** [repr] and [str] *)

Fixpoint contains_char (c : ascii) (s : string) : bool :=
  match s with
  | EmptyString => false
  | String c' s' => Ascii.eqb c c' || contains_char c s'
  end.

Definition hex_digit (n : N) : ascii :=
  match n with
  | 0%N => "0" | 1%N => "1" | 2%N => "2" | 3%N => "3" | 4%N => "4"
  | 5%N => "5" | 6%N => "6" | 7%N => "7" | 8%N => "8" | 9%N => "9"
  | 10%N => "a" | 11%N => "b" | 12%N => "c" | 13%N => "d" | 14%N => "e"
  | _ => "f"
  end%char.

Definition backslash : ascii := ascii_of_N 92.
Definition squote : ascii := ascii_of_N 39.
Definition dquote : ascii := ascii_of_N 34.

(** One character of a text literal.  Bytes from 128 up belong to the
    UTF-8 form of a character outside ASCII and are copied.  That is what
    [repr] does for the printable ones; it writes an escape for the
    others (a no-break space, say), by a table of the interpreter that is
    not followed here.  So [repr] and [str] below give the text Python
    gives on ASCII text, see [plain]; for other text only what does not
    depend on these bytes is stated of them. *)
Definition escape_char (quote c : ascii) : string :=
  let n := N_of_ascii c in
  if Ascii.eqb c quote || Ascii.eqb c backslash then String backslash (String c EmptyString)
  else if (n =? 9)%N then String backslash "t"
  else if (n =? 10)%N then String backslash "n"
  else if (n =? 13)%N then String backslash "r"
  else if ((n <? 32) || (n =? 127))%N then
    String backslash (String "x" (String (hex_digit (n / 16)) (String (hex_digit (n mod 16)) EmptyString)))
  else String c EmptyString.

Fixpoint escape (quote : ascii) (s : string) : string :=
  match s with
  | EmptyString => EmptyString
  | String c s' => escape_char quote c ++ escape quote s'
  end.

(** [repr] of text: single quotes, unless the text has a single quote and
    no double quote. *)
Definition repr_str (s : string) : string :=
  let quote :=
    if contains_char squote s && negb (contains_char dquote s) then dquote else squote in
  String quote (escape quote s ++ String quote EmptyString).

Definition repr_int (z : Z) : string := NilZero.string_of_int (Z.to_int z).

Fixpoint join (sep : string) (l : list string) : string :=
  match l with
  | [] => EmptyString
  | [x] => x
  | x :: l' => x ++ sep ++ join sep l'
  end.

Fixpoint repr (v : pyval) : string :=
  match v with
  | PNone => "None"
  | PBool b => if b then "True" else "False"
  | PInt z => repr_int z
  | PStr s => repr_str s
  | PList l => "[" ++ join ", " (map repr l) ++ "]"
  | PDict d =>
      "{" ++ join ", " (map (fun kv => match kv with
                                       | (k, x) => repr_str k ++ ": " ++ repr x
                                       end) d) ++ "}"
  end.

(** [str(v)]: text prints as itself, everything else as its [repr]. *)
Definition str (v : pyval) : string :=
  match v with
  | PStr s => s
  | _ => repr v
  end.

(** Text within ASCII, and values all of whose text is. *)
Fixpoint plain_text (s : string) : bool :=
  match s with
  | EmptyString => true
  | String c s' => (N_of_ascii c <? 128)%N && plain_text s'
  end.

Fixpoint plain (v : pyval) : bool :=
  match v with
  | PStr s => plain_text s
  | PList l => forallb plain l
  | PDict d => forallb (fun kv => match kv with
                                  | (k, x) => plain_text k && plain x
                                  end) d
  | _ => true
  end.

(** [needle in hay] on text. *)
Fixpoint contains (needle hay : string) : bool :=
  String.prefix needle hay ||
  match hay with
  | EmptyString => false
  | String _ hay' => contains needle hay'
  end.

(** ** Exceptions *)

(** Modelled from the spec: [ChatError] and [ModelOverloadedError] are the
    classes of [hugchat.exceptions], which is not part of this file; they
    are the spec's ProtocolError / UnrecognizedResponseError and
    OverloadedError, exception objects that keep the argument they were
    built with.

    [exn] stands for the instances of Python's [Exception], the ones an
    [except Exception] clause catches: [StopIteration], [KeyError] and
    [TypeError] are raised by the interpreter, [Exception msg] by
    [wait_until_done], and [ProducerError] is any other failure of the
    producer (a transport error, say).  Signals outside [Exception]
    ([KeyboardInterrupt], [SystemExit], [GeneratorExit]) are not modelled. *)
Inductive exn : Type :=
| StopIteration
| KeyError (k : string)
| TypeError
| ModelOverloadedError (msg : string)
| ChatError (arg : pyval)
| Exception (msg : string)
| ProducerError (cls msg : string).

Inductive result (A : Type) : Type :=
| Ok (a : A)
| Raise (e : exn).
Arguments Ok {A} a.
Arguments Raise {A} e.

(** [a[k]] for a text key [k]: a dict answers with the entry or raises
    [KeyError]; no other value here takes a text subscript. *)
Definition getitem (a : pyval) (k : string) : result pyval :=
  match a with
  | PDict d => match lookup k d with
               | Some v => Ok v
               | None => Raise (KeyError k)
               end
  | _ => Raise TypeError
  end.

(** [a.__contains__(k)].  It is only called after [a["type"]] has
    succeeded, that is on a dict. *)
Definition py_contains (a : pyval) (k : string) : bool :=
  match a with
  | PDict d => has_key k d
  | _ => false
  end.

Fixpoint chars (s : string) : list pyval :=
  match s with
  | EmptyString => []
  | String c s' => PStr (String c EmptyString) :: chars s'
  end.

(** The items a [for] loop runs over: the elements of a list, the keys of
    a dict, the characters of a text; nothing else here is iterable. *)
Definition py_iter (v : pyval) : result (list pyval) :=
  match v with
  | PList l => Ok l
  | PDict d => Ok (map (fun kv => PStr (fst kv)) d)
  | PStr s => Ok (chars s)
  | _ => Raise TypeError
  end.

(** ** Constants and data *)

Definition MSGTYPE_FINAL : string := "finalAnswer".
Definition MSGTYPE_STREAM : string := "stream".
Definition MSGTYPE_WEB : string := "webSearch".
Definition MSGTYPE_STATUS : string := "status".

Definition MSGSTATUS_PENDING : Z := 0.
Definition MSGSTATUS_RESOLVED : Z := 1.
Definition MSGSTATUS_REJECTED : Z := 2.

Record WebSearchSource : Type := mkWebSearchSource {
  title : pyval;
  link : pyval;
  hostname : pyval
}.

(** What one [next(g)] does: hand out an event or raise.  The producer is
    the list of what its coming pulls will do; once the list is used up
    every pull raises [StopIteration]. *)
Inductive pull : Type :=
| Yield (a : pyval)
| Throw (e : exn).

Record Message : Type := mkMessage {
  g : list pull;
  _stream_yield_all : bool;
  web_search : bool;
  web_search_sources : list WebSearchSource;
  final_answer : pyval;
  web_search_done : bool;
  msg_status : Z;
  error : option exn
}.

Definition set_g (x : list pull) (r : Message) : Message :=
  mkMessage x (_stream_yield_all r) (web_search r) (web_search_sources r)
            (final_answer r) (web_search_done r) (msg_status r) (error r).
Definition set_web_search_sources (x : list WebSearchSource) (r : Message) : Message :=
  mkMessage (g r) (_stream_yield_all r) (web_search r) x
            (final_answer r) (web_search_done r) (msg_status r) (error r).
Definition set_final_answer (x : pyval) (r : Message) : Message :=
  mkMessage (g r) (_stream_yield_all r) (web_search r) (web_search_sources r)
            x (web_search_done r) (msg_status r) (error r).
Definition set_web_search_done (x : bool) (r : Message) : Message :=
  mkMessage (g r) (_stream_yield_all r) (web_search r) (web_search_sources r)
            (final_answer r) x (msg_status r) (error r).
Definition set_msg_status (x : Z) (r : Message) : Message :=
  mkMessage (g r) (_stream_yield_all r) (web_search r) (web_search_sources r)
            (final_answer r) (web_search_done r) x (error r).
Definition set_error (x : option exn) (r : Message) : Message :=
  mkMessage (g r) (_stream_yield_all r) (web_search r) (web_search_sources r)
            (final_answer r) (web_search_done r) (msg_status r) x.

(** *** The class statement

    The class body (lines 53-60) runs once, before any reader exists: it
    binds each field name to its default, in order, in the namespace of
    the class.  Line 58 reads [web_search] from that namespace, where
    line 55 has just bound it to [False].  [g] has an annotation and no
    default. *)
Definition py_truth (v : pyval) : bool :=
  match v with
  | PNone => false
  | PBool b => b
  | PInt z => negb (z =? 0)
  | PStr s => negb (String.eqb s EmptyString)
  | PList l => match l with [] => false | _ => true end
  | PDict d => match d with [] => false | _ => true end
  end.

Definition py_not (v : pyval) : pyval := PBool (negb (py_truth v)).

Definition body_stream_yield_all : pyval := PBool false.
Definition body_web_search : pyval := PBool false.
Definition body_web_search_sources : pyval := PList [].
Definition body_final_answer : pyval := PStr EmptyString.
Definition body_web_search_done : pyval := py_not body_web_search.
Definition body_msg_status : pyval := PInt MSGSTATUS_PENDING.
Definition body_error : pyval := PNone.

Definition class_body : list (string * option pyval) :=
  [("g", None);
   ("_stream_yield_all", Some body_stream_yield_all);
   ("web_search", Some body_web_search);
   ("web_search_sources", Some body_web_search_sources);
   ("final_answer", Some body_final_answer);
   ("web_search_done", Some body_web_search_done);
   ("msg_status", Some body_msg_status);
   ("error", Some body_error)].

(** [@dataclass] (line 23) then goes through the fields in the order of
    the body and refuses a default that is a list or a dict: it raises
    [ValueError] naming the field, and no class comes out of the
    statement. *)
Inductive class_outcome : Type :=
| ClassCreated
| ClassValueError (field : string).

Definition mutable_default (v : pyval) : bool :=
  match v with
  | PList _ | PDict _ => true
  | _ => false
  end.

Fixpoint dataclass (fields : list (string * option pyval)) : class_outcome :=
  match fields with
  | [] => ClassCreated
  | (name, Some v) :: fields' =>
      if mutable_default v then ClassValueError name else dataclass fields'
  | (_, None) :: fields' => dataclass fields'
  end.

(** A sample reader for the lemmas below: the producer and the two
    switches as given, and the other fields as the class body binds them
    (no sources, empty answer, search flag set, pending, no error).  It is
    a plain record used as a concrete input; it is not the result of a
    call [Message(...)], which the class statement never makes possible. *)
Definition new_Message (g0 : list pull) (y w : bool) : Message :=
  mkMessage g0 y w [] (PStr EmptyString) true MSGSTATUS_PENDING None.

(** ** Reader computations

    A method body reads and writes the reader and may raise: a computation
    takes the reader and gives a result together with the reader as the
    body left it.  Writes done before a [raise] stay done. *)
Definition M (A : Type) : Type := Message -> result A * Message.

Definition ret {A : Type} (a : A) : M A := fun r => (Ok a, r).

Definition bind {A B : Type} (c : M A) (k : A -> M B) : M B :=
  fun r => match c r with
           | (Ok a, r') => k a r'
           | (Raise e, r') => (Raise e, r')
           end.

Definition raise {A : Type} (e : exn) : M A := fun r => (Raise e, r).

Definition lift {A : Type} (x : result A) : M A := fun r => (x, r).

Definition gets {A : Type} (f : Message -> A) : M A := fun r => (Ok (f r), r).

Definition modify (f : Message -> Message) : M unit := fun r => (Ok tt, f r).

(** [try: c except Exception as e: h e] *)
Definition try_except {A : Type} (c : M A) (h : exn -> M A) : M A :=
  fun r => match c r with
           | (Ok a, r') => (Ok a, r')
           | (Raise e, r') => h e r'
           end.

Declare Scope reader_scope.
Delimit Scope reader_scope with reader.
Notation "x <- c ;; k" := (bind c (fun x => k))
  (at level 61, c at next level, right associativity) : reader_scope.
Notation "c ;;; k" := (bind c (fun _ => k))
  (at level 61, right associativity) : reader_scope.
Local Open Scope reader_scope.

(** [for x in items: body x] *)
Fixpoint for_each (items : list pyval) (body : pyval -> M unit) : M unit :=
  match items with
  | [] => ret tt
  | x :: items' => body x ;;; for_each items' body
  end.

(** [next(self.g)] *)
Definition next_g : M pyval :=
  fun r => match g r with
           | [] => (Raise StopIteration, r)
           | Yield a :: rest => (Ok a, set_g rest r)
           | Throw e :: rest => (Raise e, set_g rest r)
           end.

(** ** The methods *)

(** Lines 81-85: one pass of the loop over [sources]. *)
Definition append_source (source : pyval) : M unit :=
  t <- lift (getitem source "title") ;;
  l <- lift (getitem source "link") ;;
  h <- lift (getitem source "hostname") ;;
  modify (fun r => set_web_search_sources
                     (web_search_sources r ++ [mkWebSearchSource t l h]) r).

Definition overload_marker : string := "Model is overloaded".
Definition overload_message : string :=
  "Model is overloaded, please try again later or switch to another model.".
Definition unknown_prefix : string := "Unknow json response: ".

(** Lines 69-96: the dispatch on the discriminant [t] of the event [a]. *)
Definition dispatch (a t : pyval) : M unit :=
  if eq_str t MSGTYPE_STREAM then
    modify (set_web_search_done true)
  else if eq_str t MSGTYPE_STATUS then
    ret tt
  else if eq_str t MSGTYPE_FINAL then
    text <- lift (getitem a "text") ;;
    modify (set_final_answer text) ;;;
    modify (set_msg_status MSGSTATUS_RESOLVED)
  else if eq_str t MSGTYPE_WEB then
    if py_contains a "sources" then
      modify (set_web_search_sources []) ;;;
      sources <- lift (getitem a "sources") ;;
      items <- lift (py_iter sources) ;;
      for_each items append_source
    else ret tt
  else
    if contains overload_marker (str a) then
      modify (set_error (Some (ModelOverloadedError overload_message))) ;;;
      modify (set_msg_status MSGSTATUS_REJECTED)
    else if py_contains a "error" then
      e <- lift (getitem a "error") ;;
      modify (set_error (Some (ChatError e))) ;;;
      modify (set_msg_status MSGSTATUS_REJECTED)
    else
      modify (set_error (Some (ChatError (PStr (unknown_prefix ++ str a))))).

(** Lines 67-100: the body of the [try].  Falling off the end of the
    method returns [None]. *)
Definition try_body : M pyval :=
  a <- next_g ;;
  t <- lift (getitem a "type") ;;
  dispatch a t ;;;
  y <- gets _stream_yield_all ;;
  if y || eq_str t MSGTYPE_STREAM then ret a else ret PNone.

(** Lines 101-103: the handler. *)
Definition handler (e : exn) : M pyval :=
  modify (set_error (Some e)) ;;;
  modify (set_msg_status MSGSTATUS_REJECTED) ;;;
  ret PNone.

(** Truth value of an [int]. *)
Definition truthy (z : Z) : bool := negb (z =? 0).

Definition done (r : Message) : Z := msg_status r.
Definition done_search (r : Message) : bool := web_search_done r.

Definition __next__ : M pyval :=
  s <- gets msg_status ;;
  if truthy s then raise StopIteration
  else try_except try_body handler.

(** Lines 126-127: [while not self.done(): self.__next__()].  [fuel]
    bounds the number of turns; [None] means the bound was too small. *)
Fixpoint wait_loop (fuel : nat) (r : Message) : option (result unit * Message) :=
  if truthy (done r) then Some (Ok tt, r)
  else match fuel with
       | O => None
       | S fuel' =>
           match __next__ r with
           | (Ok _, r') => wait_loop fuel' r'
           | (Raise e, r') => Some (Raise e, r')
           end
       end.

Definition no_error_message : string := "Rejected but no error captured!".

(** Lines 128-133. *)
Definition conclude : M pyval :=
  s <- gets done ;;
  if s =? MSGSTATUS_RESOLVED then gets final_answer
  else
    e <- gets error ;;
    match e with
    | Some x => raise x
    | None => raise (Exception no_error_message)
    end.

Definition wait_until_done (fuel : nat) (r : Message)
  : option (result pyval * Message) :=
  match wait_loop fuel r with
  | None => None
  | Some (Ok _, r') => Some (conclude r')
  | Some (Raise e, r') => Some (Raise e, r')
  end.

Definition __iter__ (r : Message) : Message := r.

(** The turns of [for res in msg: ...]: the loop body sees every value
    [__next__] returns, and the loop ends when [__next__] raises; the
    result is the values seen, the exception that ended the loop
    ([StopIteration] for a normal end) and the reader afterwards. *)
Fixpoint iterate (fuel : nat) (r : Message) : option (list pyval * exn * Message) :=
  match fuel with
  | O => None
  | S fuel' =>
      match __next__ r with
      | (Raise e, r') => Some ([], e, r')
      | (Ok v, r') =>
          match iterate fuel' r' with
          | Some (vs, e, r'') => Some (v :: vs, e, r'')
          | None => None
          end
      end
  end.

(** A bound on the turns either loop can take. *)
Definition turns (r : Message) : nat := S (S (List.length (g r))).

(** The reader after one call, whatever the call answered. *)
Definition advance (r : Message) : Message := snd (__next__ r).

(** The reader after [n] calls. *)
Fixpoint advance_n (n : nat) (r : Message) : Message :=
  match n with
  | O => r
  | S n' => advance_n n' (advance r)
  end.

(** The values a [for] loop over the reader sees; the loop runs on
    [iter(msg)], which is the reader itself. *)
Definition surfaced (fuel : nat) (r : Message) : option (list pyval) :=
  match iterate fuel (__iter__ r) with
  | Some (vs, _, _) => Some vs
  | None => None
  end.

(** The discriminant tests, on a whole event. *)
Definition has_type (s : string) (a : pyval) : bool :=
  match getitem a "type" with
  | Ok t => eq_str t s
  | Raise _ => false
  end.

(** [t] is one of the four discriminants the dispatch knows. *)
Definition known_type (t : pyval) : bool :=
  eq_str t MSGTYPE_STREAM || eq_str t MSGTYPE_STATUS ||
  eq_str t MSGTYPE_FINAL || eq_str t MSGTYPE_WEB.

Definition is_stream : pyval -> bool := has_type MSGTYPE_STREAM.
Definition is_final : pyval -> bool := has_type MSGTYPE_FINAL.

(** [w] is what lines 81-84 read off the entry [e] of a sources list. *)
Definition entry_of (w : WebSearchSource) (e : pyval) : Prop :=
  getitem e "title" = Ok (title w) /\
  getitem e "link" = Ok (link w) /\
  getitem e "hostname" = Ok (hostname w).

(** ** Sample events *)

Definition ev_status : pyval := PDict [("type", PStr "status")].
Definition ev_final : pyval :=
  PDict [("type", PStr "finalAnswer"); ("text", PStr "hello")].
Definition ev_stream : pyval :=
  PDict [("type", PStr "stream"); ("token", PStr "he")].
Definition ev_web : pyval :=
  PDict [("type", PStr "webSearch");
         ("sources", PList [PDict [("title", PStr "T"); ("link", PStr "L");
                                   ("hostname", PStr "H")]])].
Definition ev_unknown : pyval := PDict [("type", PStr "foo")].
Definition ev_typed_error : pyval :=
  PDict [("type", PStr "error"); ("error", PStr "bad request")].
Definition ev_typed_overload : pyval :=
  PDict [("type", PStr "error"); ("error", PStr "Model is overloaded")].
(** Scenario D of the specification: an error payload without ["type"]. *)
Definition ev_bad_request : pyval := PDict [("error", PStr "bad request")].

(** A failure of the transport under the producer. *)
Definition transport_failure : exn := ProducerError "ConnectionError" "reset".

(** ** Shapes of a call *)

(** Lines 102-103 as one update. *)
Definition reject (e : exn) (r : Message) : Message :=
  set_msg_status MSGSTATUS_REJECTED (set_error (Some e) r).

(** The exception lines 82-84 raise on the entry [x], if they raise. *)
Definition entry_fault (x : pyval) : option exn :=
  match getitem x "title" with
  | Raise e => Some e
  | Ok _ =>
      match getitem x "link" with
      | Raise e => Some e
      | Ok _ =>
          match getitem x "hostname" with
          | Raise e => Some e
          | Ok _ => None
          end
      end
  end.

(** The ways the dispatch of lines 69-96 can end on the event [a] with
    discriminant [t]: one constructor per branch, with the result of the
    branch and the reader it leaves. *)
Inductive dispatched (a t : pyval) (r : Message) : result unit -> Message -> Prop :=
| dispatched_stream :
    eq_str t MSGTYPE_STREAM = true ->
    dispatched a t r (Ok tt) (set_web_search_done true r)
| dispatched_status :
    eq_str t MSGTYPE_STATUS = true ->
    dispatched a t r (Ok tt) r
| dispatched_final (text : pyval) :
    eq_str t MSGTYPE_FINAL = true -> getitem a "text" = Ok text ->
    dispatched a t r (Ok tt)
      (set_msg_status MSGSTATUS_RESOLVED (set_final_answer text r))
| dispatched_final_fail (e : exn) :
    eq_str t MSGTYPE_FINAL = true -> getitem a "text" = Raise e ->
    dispatched a t r (Raise e) r
| dispatched_web_skip :
    eq_str t MSGTYPE_WEB = true -> py_contains a "sources" = false ->
    dispatched a t r (Ok tt) r
| dispatched_web (res : result unit) (ws : list WebSearchSource) :
    eq_str t MSGTYPE_WEB = true -> py_contains a "sources" = true ->
    dispatched a t r res (set_web_search_sources ws r)
| dispatched_overload :
    known_type t = false -> contains overload_marker (str a) = true ->
    dispatched a t r (Ok tt) (reject (ModelOverloadedError overload_message) r)
| dispatched_error (x : pyval) :
    known_type t = false -> getitem a "error" = Ok x ->
    dispatched a t r (Ok tt) (reject (ChatError x) r)
| dispatched_unknown :
    known_type t = false -> py_contains a "error" = false ->
    dispatched a t r (Ok tt)
      (set_error (Some (ChatError (PStr (unknown_prefix ++ str a)))) r).

(** The events among some pulls, in order. *)
Fixpoint yielded (ps : list pull) : list pyval :=
  match ps with
  | [] => []
  | Yield a :: ps' => a :: yielded ps'
  | Throw _ :: ps' => yielded ps'
  end.

(** What calls of [__next__] keep true of a reader, from the reader [r0]
    they started on: a status among the three constants, an error
    whenever rejected, and the answer of [r0] unless resolved. *)
Definition healthy_since (r0 r : Message) : Prop :=
  (msg_status r = MSGSTATUS_PENDING \/ msg_status r = MSGSTATUS_RESOLVED \/
   msg_status r = MSGSTATUS_REJECTED) /\
  (msg_status r = MSGSTATUS_REJECTED -> error r <> None) /\
  (msg_status r <> MSGSTATUS_RESOLVED -> final_answer r = final_answer r0).

(** More sample events. *)
Definition ev_final_no_text : pyval := PDict [("type", PStr "finalAnswer")].
Definition ev_web_no_sources : pyval := PDict [("type", PStr "webSearch")].
Definition ev_web_null_sources : pyval :=
  PDict [("type", PStr "webSearch"); ("sources", PNone)].
Definition ev_web_broken : pyval :=
  PDict [("type", PStr "webSearch");
         ("sources", PList [PDict [("title", PStr "T"); ("link", PStr "L");
                                   ("hostname", PStr "H")];
                            PDict [("title", PStr "U"); ("link", PStr "M")];
                            PDict [("title", PStr "V"); ("link", PStr "N");
                                   ("hostname", PStr "I")]])].
Definition ev_marker_in_token : pyval :=
  PDict [("type", PStr "token"); ("error", PStr "bad request");
         ("text", PStr "the reply was: Model is overloaded")].

(** ** Basic facts about one call *)

Ltac run_reader :=
  unfold bind, lift, modify, gets, ret, raise in *; simpl in *.

Lemma truthy_false_iff z : truthy z = false <-> z = 0.
Proof.
  unfold truthy. rewrite negb_false_iff. apply Z.eqb_eq.
Qed.

Lemma truthy_true_iff z : truthy z = true <-> z <> 0.
Proof.
  unfold truthy. rewrite negb_true_iff. apply Z.eqb_neq.
Qed.

Lemma next_terminal r :
  msg_status r <> 0 -> __next__ r = (Raise StopIteration, r).
Proof.
  intros H. apply truthy_true_iff in H.
  unfold __next__, bind, gets, raise. now rewrite H.
Qed.

Lemma next_pending r :
  msg_status r = 0 -> __next__ r = try_except try_body handler r.
Proof.
  intros H. apply truthy_false_iff in H.
  unfold __next__, bind, gets. now rewrite H.
Qed.

Lemma eq_str_true t s : eq_str t s = true -> t = PStr s.
Proof.
  destruct t; simpl; try discriminate.
  intros H. apply String.eqb_eq in H. now subst.
Qed.

Lemma set_sources_eta r : set_web_search_sources (web_search_sources r) r = r.
Proof. now destruct r. Qed.

(** The loop over the sources touches nothing but [web_search_sources]. *)
Lemma for_each_append_frame items : forall r res r',
  for_each items append_source r = (res, r') ->
  r' = set_web_search_sources (web_search_sources r') r.
Proof.
  induction items as [|x items IH]; intros r res r' H.
  - inversion H; subst. now rewrite set_sources_eta.
  - simpl in H. unfold bind at 1 in H.
    destruct (append_source x r) as [[[]|e] r1] eqn:E1.
    + apply IH in H. rewrite H.
      unfold append_source, bind, lift, modify in E1.
      destruct (getitem x "title"); [|discriminate].
      destruct (getitem x "link"); [|discriminate].
      destruct (getitem x "hostname"); [|discriminate].
      inversion E1; subst. now destruct r.
    + inversion H; subst.
      unfold append_source, bind, lift, modify in E1.
      destruct (getitem x "title"); [|inversion E1; subst; now destruct r'].
      destruct (getitem x "link"); [|inversion E1; subst; now destruct r'].
      destruct (getitem x "hostname"); [|inversion E1; subst; now destruct r'].
      discriminate.
Qed.

(** What the dispatch may change: never the producer or the configuration,
    and the status only by resolving (on a final answer) or rejecting. *)
Lemma dispatch_frame a t r res r' :
  dispatch a t r = (res, r') ->
  g r' = g r /\ _stream_yield_all r' = _stream_yield_all r /\
  web_search r' = web_search r /\
  (msg_status r' = msg_status r \/
   (res = Ok tt /\ msg_status r' = MSGSTATUS_REJECTED /\ error r' <> None) \/
   (res = Ok tt /\ msg_status r' = MSGSTATUS_RESOLVED /\
    eq_str t MSGTYPE_FINAL = true)).
Proof.
  unfold dispatch. intros H.
  destruct (eq_str t MSGTYPE_STREAM).
  { run_reader. inversion H; subst. destruct r; simpl; auto. }
  destruct (eq_str t MSGTYPE_STATUS).
  { run_reader. inversion H; subst. auto. }
  destruct (eq_str t MSGTYPE_FINAL).
  { run_reader. destruct (getitem a "text"); inversion H; subst.
    - destruct r; simpl; auto 10.
    - auto. }
  destruct (eq_str t MSGTYPE_WEB).
  { destruct (py_contains a "sources").
    - run_reader.
      destruct (getitem a "sources") as [srcs|e].
      + destruct (py_iter srcs) as [items|e].
        * apply for_each_append_frame in H. rewrite H.
          destruct r; simpl; auto.
        * inversion H; subst. destruct r; simpl; auto.
      + inversion H; subst. destruct r; simpl; auto.
    - run_reader. inversion H; subst. auto. }
  destruct (contains overload_marker (str a)).
  { run_reader. inversion H; subst. destruct r; simpl.
    intuition discriminate. }
  destruct (py_contains a "error").
  { run_reader. destruct (getitem a "error"); inversion H; subst.
    - destruct r; simpl. intuition discriminate.
    - auto. }
  run_reader. inversion H; subst. destruct r; simpl; auto.
Qed.

(** One call on a pending reader: it returns (never raises), takes one pull
    off the producer, keeps the configuration, and leaves the status
    pending, rejected, or resolved by a final answer.  The value returned
    is [None] unless it is the pulled event itself, and then either all
    events are passed on or the event is a streamed token. *)
Lemma next_pending_spec r :
  msg_status r = 0 ->
  exists v r',
    __next__ r = (Ok v, r') /\
    g r' = tl (g r) /\
    _stream_yield_all r' = _stream_yield_all r /\
    (msg_status r' = MSGSTATUS_PENDING \/
     msg_status r' = MSGSTATUS_REJECTED \/
     (msg_status r' = MSGSTATUS_RESOLVED /\
      exists a rest, g r = Yield a :: rest /\ is_final a = true)) /\
    (g r = [] -> msg_status r' = MSGSTATUS_REJECTED) /\
    (msg_status r' = MSGSTATUS_REJECTED -> error r' <> None) /\
    (v = PNone \/
     (exists rest, g r = Yield v :: rest) /\
     (_stream_yield_all r = true \/ is_stream v = true)).
Proof.
  intros Hp. rewrite (next_pending r Hp).
  unfold try_except, try_body, handler, next_g.
  unfold bind at 1.
  destruct (g r) as [|[a|e] rest] eqn:Hg.
  - run_reader. eexists _, _. split; [reflexivity|].
    simpl. rewrite Hg. intuition discriminate.
  - unfold bind at 1, lift at 1.
    destruct (getitem a "type") as [t|e] eqn:Ht.
    + unfold bind at 1.
      destruct (dispatch a t (set_g rest r)) as [[[]|e] r1] eqn:Hd;
        apply dispatch_frame in Hd;
        destruct Hd as (Hg1 & Hy1 & _ & Hs1); simpl in Hg1, Hy1, Hs1.
      * assert (Herr : msg_status r1 = MSGSTATUS_REJECTED -> error r1 <> None).
        { unfold MSGSTATUS_REJECTED, MSGSTATUS_RESOLVED in *.
          destruct Hs1 as [Hs1|[(_ & _ & He)|(_ & Hs1 & _)]];
            [intros; lia|now intros|intros; lia]. }
        assert (Hst : msg_status r1 = MSGSTATUS_PENDING \/
                      msg_status r1 = MSGSTATUS_REJECTED \/
                      (msg_status r1 = MSGSTATUS_RESOLVED /\
                       exists a0 rest0, Yield a :: rest = Yield a0 :: rest0 /\
                                        is_final a0 = true)).
        { destruct Hs1 as [Hs1|[(_ & Hs1 & _)|(_ & Hs1 & Hf)]].
          - left. unfold MSGSTATUS_PENDING. congruence.
          - right; left. assumption.
          - right; right. split; [assumption|].
            exists a, rest. split; [reflexivity|].
            unfold is_final, has_type. now rewrite Ht. }
        run_reader.
        destruct (_stream_yield_all r1 || eq_str t MSGTYPE_STREAM) eqn:Hy;
          eexists _, _; (split; [reflexivity|]);
          (split; [assumption|]); (split; [assumption|]);
          (split; [assumption|]); (split; [discriminate|]);
          (split; [assumption|]); [right|now left].
        split; [now exists rest|].
        rewrite Hy1 in Hy. apply orb_true_iff in Hy.
        destruct Hy as [Hy|Hy]; [now left|right].
        unfold is_stream, has_type. now rewrite Ht.
      * run_reader. eexists _, _. split; [reflexivity|]. simpl.
        split; [assumption|]. split; [assumption|]. intuition discriminate.
    + run_reader. eexists _, _. split; [reflexivity|]. simpl.
      intuition discriminate.
  - run_reader. eexists _, _. split; [reflexivity|]. simpl.
    intuition discriminate.
Qed.

(** ** The loops *)

Lemma wait_loop_terminal r fuel :
  msg_status r <> 0 -> wait_loop fuel r = Some (Ok tt, r).
Proof.
  intros H. apply truthy_true_iff in H.
  destruct fuel; simpl; unfold done; now rewrite H.
Qed.

Lemma wait_loop_pending r fuel v r1 :
  msg_status r = 0 -> __next__ r = (Ok v, r1) ->
  wait_loop (S fuel) r = wait_loop fuel r1.
Proof.
  intros H E. apply truthy_false_iff in H.
  simpl. unfold done. now rewrite H, E.
Qed.

(** The [while] loop stops: it calls [__next__] while the status is
    pending, at most once per pull the producer has left and once more. *)
Lemma wait_loop_runs : forall n r,
  (List.length (g r) < n)%nat ->
  exists k,
    (k <= n)%nat /\
    (forall j, (j < k)%nat -> msg_status (advance_n j r) = MSGSTATUS_PENDING) /\
    msg_status (advance_n k r) <> MSGSTATUS_PENDING /\
    forall fuel, (k <= fuel)%nat ->
      wait_loop fuel r = Some (Ok tt, advance_n k r).
Proof.
  unfold MSGSTATUS_PENDING.
  induction n as [|n IH]; intros r Hlen; [lia|].
  destruct (Z.eq_dec (msg_status r) 0) as [Hp|Ht].
  - destruct (next_pending_spec r Hp)
      as (v & r1 & E & Hg & _ & _ & Hex & _ & _).
    assert (Ha : advance r = r1) by (unfold advance; now rewrite E).
    destruct (g r) as [|p rest] eqn:Hgr.
    + exists 1%nat. simpl. rewrite Ha.
      specialize (Hex eq_refl). unfold MSGSTATUS_REJECTED in Hex.
      repeat split.
      * lia.
      * intros j Hj. assert (j = 0)%nat by lia. now subst.
      * lia.
      * intros [|fuel] Hf; [lia|].
        rewrite (wait_loop_pending r fuel v r1 Hp E).
        apply wait_loop_terminal. lia.
    + simpl in Hlen, Hg.
      destruct (IH r1) as (k & Hk & Hpend & Hterm & Hrun).
      { rewrite Hg. lia. }
      exists (S k). simpl. rewrite Ha. repeat split.
      * lia.
      * intros [|j] Hj; simpl; [assumption|].
        rewrite Ha. apply Hpend. lia.
      * assumption.
      * intros [|fuel] Hf; [lia|].
        rewrite (wait_loop_pending r fuel v r1 Hp E).
        apply Hrun. lia.
  - exists 0%nat. simpl. repeat split.
    + lia.
    + intros j Hj. lia.
    + assumption.
    + intros fuel _. now apply wait_loop_terminal.
Qed.

Lemma iterate_terminal r fuel :
  msg_status r <> 0 -> iterate (S fuel) r = Some ([], StopIteration, r).
Proof.
  intros H. simpl. now rewrite (next_terminal r H).
Qed.

(** The [for] loop stops too, and always by [StopIteration]. *)
Lemma iterate_runs : forall n r fuel,
  (List.length (g r) < n)%nat -> (S n <= fuel)%nat ->
  exists vs r', iterate fuel r = Some (vs, StopIteration, r').
Proof.
  induction n as [|n IH]; intros r fuel Hlen Hfuel; [lia|].
  destruct fuel as [|fuel]; [lia|].
  destruct (Z.eq_dec (msg_status r) 0) as [Hp|Ht].
  - destruct (next_pending_spec r Hp)
      as (v & r1 & E & Hg & _ & _ & Hex & _ & _).
    simpl. rewrite E.
    destruct (g r) as [|p rest] eqn:Hgr.
    + specialize (Hex eq_refl). unfold MSGSTATUS_REJECTED in Hex.
      destruct fuel as [|fuel]; [lia|].
      rewrite iterate_terminal by lia. now eexists _, _.
    + simpl in Hlen, Hg.
      destruct (IH r1 fuel) as (vs & r' & E'); [rewrite Hg; lia|lia|].
      rewrite E'. now eexists _, _.
  - rewrite iterate_terminal by assumption. now eexists _, _.
Qed.

(** Every value the [for] loop sees is [None] or an event of the producer,
    and such an event is seen only if all events are passed on or it is a
    streamed token. *)
Lemma iterate_values : forall fuel r vs e r',
  iterate fuel r = Some (vs, e, r') ->
  Forall (fun v => v = PNone \/
                   (In (Yield v) (g r) /\
                    (_stream_yield_all r = true \/ is_stream v = true))) vs.
Proof.
  induction fuel as [|fuel IH]; intros r vs e r' H; [discriminate|].
  simpl in H.
  destruct (Z.eq_dec (msg_status r) 0) as [Hp|Ht].
  - destruct (next_pending_spec r Hp)
      as (v & r1 & E & Hg & Hy & _ & _ & _ & Hv).
    rewrite E in H.
    destruct (iterate fuel r1) as [[[vs1 e1] r1']|] eqn:E1; [|discriminate].
    inversion H; subst. constructor.
    + destruct Hv as [Hv|[[rest Hv] Hs]]; [now left|right].
      split; [|assumption]. rewrite Hv. now left.
    + apply IH in E1. eapply Forall_impl; [|exact E1].
      intros x [Hx|[Hin Hs]]; [now left|right].
      rewrite Hg in Hin. rewrite Hy in Hs. split; [|assumption].
      destruct (g r); [destruct Hin|now right].
  - rewrite (next_terminal r Ht) in H. inversion H; subst. constructor.
Qed.

Lemma advance_n_succ_r n : forall r,
  advance_n (S n) r = advance (advance_n n r).
Proof.
  induction n as [|n IH]; intros r; [reflexivity|].
  change (advance_n (S (S n)) r) with (advance_n (S n) (advance r)).
  now rewrite IH.
Qed.

(** ** Status and termination *)

(** C1: the status only ever moves from pending to resolved or from pending
    to rejected, and once it is resolved or rejected every later call of
    [__next__] raises [StopIteration] and leaves every field of the reader
    as it was. *)
Theorem status_monotonic_terminal_absorbing (r : Message) :
  (forall out r', __next__ r = (out, r') ->
     msg_status r' = msg_status r \/
     (msg_status r = MSGSTATUS_PENDING /\
      (msg_status r' = MSGSTATUS_RESOLVED \/
       msg_status r' = MSGSTATUS_REJECTED))) /\
  (msg_status r = MSGSTATUS_RESOLVED \/ msg_status r = MSGSTATUS_REJECTED ->
   forall n,
     advance_n n r = r /\
     __next__ (advance_n n r) = (Raise StopIteration, advance_n n r)).
Proof.
  split.
  - intros out r' E.
    destruct (Z.eq_dec (msg_status r) 0) as [Hp|Ht].
    + destruct (next_pending_spec r Hp) as (v & r1 & E1 & _ & _ & Hs & _).
      rewrite E in E1. inversion E1; subst r1.
      destruct Hs as [Hs|[Hs|[Hs _]]].
      * left. unfold MSGSTATUS_PENDING in Hs. congruence.
      * right. split; [exact Hp|now right].
      * right. split; [exact Hp|now left].
    + rewrite (next_terminal r Ht) in E. inversion E. now left.
  - intros Hterm.
    assert (Hnz : msg_status r <> 0)
      by (unfold MSGSTATUS_RESOLVED, MSGSTATUS_REJECTED in Hterm; lia).
    assert (Hfix : forall n, advance_n n r = r).
    { induction n as [|n IH]; [reflexivity|].
      rewrite advance_n_succ_r, IH. unfold advance.
      now rewrite (next_terminal r Hnz). }
    intros n. rewrite Hfix. split; [reflexivity|].
    now apply next_terminal.
Qed.

Lemma status_monotonic_terminal_absorbing_witness :
  let r := advance (new_Message [Yield ev_final] false false) in
  (msg_status r = MSGSTATUS_RESOLVED \/ msg_status r = MSGSTATUS_REJECTED) /\
  advance_n 3 r = r /\
  __next__ (advance_n 3 r) = (Raise StopIteration, advance_n 3 r).
Proof.
  split.
  - left. reflexivity.
  - apply (proj2 (status_monotonic_terminal_absorbing
                    (advance (new_Message [Yield ev_final] false false)))).
    left. reflexivity.
Defined.

(** ** Failures of the producer *)

Lemma conclude_rejected r e :
  msg_status r = MSGSTATUS_REJECTED -> error r = Some e ->
  forall fuel, wait_until_done fuel r = Some (Raise e, r).
Proof.
  intros Hs He fuel. unfold wait_until_done.
  rewrite wait_loop_terminal by (rewrite Hs; discriminate).
  unfold conclude, bind, gets, raise, done. rewrite Hs. simpl. now rewrite He.
Qed.

(** C4: when the pull raises, a pending reader stores that very exception,
    becomes rejected, and the call returns [None]; [wait_until_done] then
    raises the stored exception. *)
Theorem producer_failure_captured (r : Message) (e : exn) (rest : list pull) :
  msg_status r = MSGSTATUS_PENDING ->
  g r = Throw e :: rest ->
  let r' := set_msg_status MSGSTATUS_REJECTED (set_error (Some e) (set_g rest r)) in
  __next__ r = (Ok PNone, r') /\
  error r' = Some e /\ msg_status r' = MSGSTATUS_REJECTED /\
  forall fuel, wait_until_done fuel r' = Some (Raise e, r').
Proof.
  intros Hp Hg r'.
  split; [|split; [reflexivity|split; [reflexivity|]]].
  - rewrite (next_pending r Hp).
    unfold try_except, try_body, next_g, bind. now rewrite Hg.
  - now apply conclude_rejected.
Qed.

Lemma producer_failure_captured_witness :
  let r := new_Message [Throw transport_failure; Yield ev_final] false false in
  let r' := advance r in
  error r' = Some transport_failure /\ msg_status r' = MSGSTATUS_REJECTED /\
  wait_until_done 0 r' = Some (Raise transport_failure, r').
Proof.
  pose proof (producer_failure_captured
                (new_Message [Throw transport_failure; Yield ev_final] false false)
                transport_failure [Yield ev_final] eq_refl eq_refl) as H.
  simpl in H. destruct H as (_ & He & Hs & Hw).
  split; [exact He|]. split; [exact Hs|]. exact (Hw 0%nat).
Defined.

(** ** Streamed tokens *)

(** C5: a pulled event of type [stream] sets [web_search_done] and is
    returned to the caller as it is, whatever [_stream_yield_all] and
    [web_search] are. *)
Theorem stream_event_surfaced (r : Message) (d : list (string * pyval))
    (rest : list pull) :
  msg_status r = MSGSTATUS_PENDING ->
  g r = Yield (PDict d) :: rest ->
  lookup "type" d = Some (PStr MSGTYPE_STREAM) ->
  __next__ r = (Ok (PDict d), set_web_search_done true (set_g rest r)) /\
  done_search (advance r) = true.
Proof.
  intros Hp Hg Ht.
  assert (E : __next__ r = (Ok (PDict d), set_web_search_done true (set_g rest r))).
  { rewrite (next_pending r Hp).
    unfold try_except, try_body, next_g, bind, lift, gets, ret.
    rewrite Hg. simpl. rewrite Ht. simpl.
    now rewrite orb_true_r. }
  split; [exact E|]. unfold advance. now rewrite E.
Qed.

Lemma stream_event_surfaced_witness :
  let r := new_Message [Yield ev_stream] false true in
  __next__ r = (Ok ev_stream, set_web_search_done true (set_g [] r)) /\
  done_search (advance r) = true.
Proof.
  exact (stream_event_surfaced (new_Message [Yield ev_stream] false true)
           [("type", PStr "stream"); ("token", PStr "he")] []
           eq_refl eq_refl eq_refl).
Defined.

(** ** Construction *)

(** C6: no reader is ever constructed: the class statement ends in the
    [ValueError] that [@dataclass] raises on the list default of
    [web_search_sources] (line 56).  By then the body has bound the default
    of [web_search_done] to the constant [True], computed on line 58 from
    the class-level [web_search = False] and not from an argument of a
    constructor. *)
Theorem class_statement_raises_value_error :
  dataclass class_body = ClassValueError "web_search_sources" /\
  In ("web_search", Some (PBool false)) class_body /\
  In ("web_search_done", Some (PBool true)) class_body.
Proof.
  split; [reflexivity|]. split.
  - right. right. left. reflexivity.
  - do 5 right. left. reflexivity.
Qed.

(** ** Web search sources *)

Lemma for_each_append_ok : forall l ws r,
  Forall2 entry_of ws l ->
  for_each l append_source r =
    (Ok tt, set_web_search_sources (web_search_sources r ++ ws) r).
Proof.
  intros l ws r H. revert r.
  induction H as [|w x ws l (Ht & Hl & Hh) _ IH]; intros r.
  - simpl. unfold ret. rewrite app_nil_r. now rewrite set_sources_eta.
  - simpl. unfold bind at 1. unfold append_source, bind, lift, modify.
    rewrite Ht, Hl, Hh. rewrite IH. simpl.
    rewrite <- app_assoc. destruct w, r. reflexivity.
Qed.

(** C8: a pulled [webSearch] event with a [sources] list makes
    [web_search_sources] the list parsed from that event, one source per
    entry in order, with the title, link and hostname of the entry;
    whatever the reader held before is dropped. *)
Theorem web_search_sources_replaced (r : Message) (d : list (string * pyval))
    (l : list pyval) (ws : list WebSearchSource) (rest : list pull) :
  msg_status r = MSGSTATUS_PENDING ->
  g r = Yield (PDict d) :: rest ->
  lookup "type" d = Some (PStr MSGTYPE_WEB) ->
  lookup "sources" d = Some (PList l) ->
  Forall2 entry_of ws l ->
  __next__ r = (Ok (if _stream_yield_all r then PDict d else PNone),
                set_web_search_sources ws (set_g rest r)) /\
  web_search_sources (advance r) = ws.
Proof.
  intros Hp Hg Ht Hs Hws.
  assert (E : __next__ r = (Ok (if _stream_yield_all r then PDict d else PNone),
                            set_web_search_sources ws (set_g rest r))).
  { rewrite (next_pending r Hp).
    unfold try_except, try_body, next_g.
    unfold bind at 1. rewrite Hg.
    unfold bind at 1, lift at 1. simpl getitem. rewrite Ht.
    unfold bind at 1. unfold dispatch.
    change (eq_str (PStr MSGTYPE_WEB) MSGTYPE_STREAM) with false.
    change (eq_str (PStr MSGTYPE_WEB) MSGTYPE_STATUS) with false.
    change (eq_str (PStr MSGTYPE_WEB) MSGTYPE_FINAL) with false.
    change (eq_str (PStr MSGTYPE_WEB) MSGTYPE_WEB) with true.
    cbv iota. unfold py_contains, has_key. rewrite Hs.
    unfold bind at 1, modify at 1.
    unfold bind at 1, lift at 1. simpl getitem. rewrite Hs.
    unfold bind at 1, lift at 1. simpl py_iter.
    cbv iota. rewrite (for_each_append_ok l ws _ Hws). simpl.
    unfold bind, gets, ret. simpl.
    rewrite orb_false_r. now destruct (_stream_yield_all r). }
  split; [exact E|]. unfold advance. now rewrite E.
Qed.

Lemma web_search_sources_replaced_witness :
  let old := mkWebSearchSource (PStr "old") (PStr "o") (PStr "o") in
  let r := set_web_search_sources [old] (new_Message [Yield ev_web] false true) in
  web_search_sources (advance r) =
    [mkWebSearchSource (PStr "T") (PStr "L") (PStr "H")].
Proof.
  refine (proj2 (web_search_sources_replaced
            (set_web_search_sources
               [mkWebSearchSource (PStr "old") (PStr "o") (PStr "o")]
               (new_Message [Yield ev_web] false true))
            _ _ [mkWebSearchSource (PStr "T") (PStr "L") (PStr "H")] []
            eq_refl eq_refl eq_refl eq_refl _)).
  repeat constructor.
Defined.

(** ** Classification of other events *)

(** The call on an event of another type, as the model computes it. *)
Lemma next_fallback_event (r : Message) (d : list (string * pyval))
    (t : pyval) (rest : list pull) :
  msg_status r = MSGSTATUS_PENDING ->
  g r = Yield (PDict d) :: rest ->
  lookup "type" d = Some t ->
  known_type t = false ->
  let a := PDict d in
  let r0 := set_g rest r in
  let r' :=
    if contains overload_marker (str a) then
      set_msg_status MSGSTATUS_REJECTED
        (set_error (Some (ModelOverloadedError overload_message)) r0)
    else match lookup "error" d with
         | Some x =>
             set_msg_status MSGSTATUS_REJECTED
               (set_error (Some (ChatError x)) r0)
         | None =>
             set_error (Some (ChatError (PStr (unknown_prefix ++ str a)))) r0
         end in
  __next__ r = (Ok (if _stream_yield_all r then a else PNone), r') /\
  (contains overload_marker (str a) = false -> lookup "error" d = None ->
   msg_status r' = MSGSTATUS_PENDING).
Proof.
  intros Hp Hg Ht Hk a r0 r'.
  unfold known_type in Hk.
  apply orb_false_iff in Hk. destruct Hk as [Hk Hweb].
  apply orb_false_iff in Hk. destruct Hk as [Hk Hfinal].
  apply orb_false_iff in Hk. destruct Hk as [Hstream Hstatus].
  split.
  - rewrite (next_pending r Hp).
    unfold try_except, try_body, next_g.
    unfold bind at 1. rewrite Hg.
    unfold bind at 1, lift at 1. simpl getitem. rewrite Ht.
    unfold bind at 1. unfold dispatch.
    rewrite Hstream, Hstatus, Hfinal, Hweb.
    fold a. fold r0. subst r'.
    destruct (contains overload_marker (str a)).
    + run_reader. rewrite orb_false_r. now destruct (_stream_yield_all r).
    + unfold py_contains, a, has_key.
      destruct (lookup "error" d) as [x|] eqn:He.
      * run_reader. rewrite He. simpl.
        rewrite orb_false_r. now destruct (_stream_yield_all r).
      * run_reader. rewrite orb_false_r. now destruct (_stream_yield_all r).
  - intros Hc He. subst r'. rewrite Hc, He. exact Hp.
Qed.

(** C2, as amended: a pulled event that carries a ["type"] entry other
    than the four known ones is classified in this order: if its text form
    contains the overload marker, the reader stores a
    [ModelOverloadedError] and is rejected; else if it has an ["error"]
    entry, the reader stores a [ChatError] of that entry and is rejected;
    else the reader stores a [ChatError] whose text starts with
    ["Unknow json response: "] and goes on with the text of the event
    (pinned here for events with ASCII text), and the status stays
    pending. *)
Theorem fallback_classification (r : Message) (d : list (string * pyval))
    (t : pyval) (rest : list pull) :
  msg_status r = MSGSTATUS_PENDING ->
  g r = Yield (PDict d) :: rest ->
  lookup "type" d = Some t ->
  known_type t = false ->
  let a := PDict d in
  let r0 := set_g rest r in
  exists r',
    __next__ r = (Ok (if _stream_yield_all r then a else PNone), r') /\
    (contains overload_marker (str a) = true ->
     r' = set_msg_status MSGSTATUS_REJECTED
            (set_error (Some (ModelOverloadedError overload_message)) r0)) /\
    (contains overload_marker (str a) = false ->
     forall x, lookup "error" d = Some x ->
     r' = set_msg_status MSGSTATUS_REJECTED
            (set_error (Some (ChatError x)) r0)) /\
    (contains overload_marker (str a) = false -> lookup "error" d = None ->
     msg_status r' = MSGSTATUS_PENDING /\
     (exists m,
        r' = set_error (Some (ChatError (PStr (unknown_prefix ++ m)))) r0) /\
     (plain a = true ->
      r' = set_error
             (Some (ChatError (PStr (unknown_prefix ++ str a)))) r0)).
Proof.
  intros Hp Hg Ht Hk a r0.
  destruct (next_fallback_event r d t rest Hp Hg Ht Hk) as [E _].
  cbv zeta in E. fold a r0 in E.
  eexists. split; [exact E|].
  split; [|split].
  - intros Hm. now rewrite Hm.
  - intros Hm x Hx. now rewrite Hm, Hx.
  - intros Hm He. rewrite Hm, He.
    split; [exact Hp|]. split; [now exists (str a)|reflexivity].
Qed.

Lemma fallback_classification_witness :
  let r := new_Message [Yield ev_typed_error; Yield ev_final] false false in
  __next__ r =
    (Ok PNone,
     set_msg_status MSGSTATUS_REJECTED
       (set_error (Some (ChatError (PStr "bad request")))
                  (set_g [Yield ev_final] r))).
Proof.
  destruct (fallback_classification
              (new_Message [Yield ev_typed_error; Yield ev_final] false false)
              [("type", PStr "error"); ("error", PStr "bad request")]
              (PStr "error") [Yield ev_final]
              eq_refl eq_refl eq_refl eq_refl) as (r' & E & _ & He & _).
  cbv zeta. rewrite E.
  now rewrite (He eq_refl (PStr "bad request") eq_refl).
Defined.

(** C2, as stated, fails on scenario D of the specification: the event
    [{"error": "bad request"}] has none of the four discriminants, no
    overload marker and an ["error"] entry, yet the reader does not store
    a [ChatError] of that entry: reading ["type"] raises [KeyError], and
    that is what the reader stores. *)
Lemma fallback_classification_needs_type :
  let r := new_Message [Yield ev_bad_request] false false in
  has_type MSGTYPE_STREAM ev_bad_request = false /\
  has_type MSGTYPE_STATUS ev_bad_request = false /\
  has_type MSGTYPE_FINAL ev_bad_request = false /\
  has_type MSGTYPE_WEB ev_bad_request = false /\
  contains overload_marker (str ev_bad_request) = false /\
  getitem ev_bad_request "error" = Ok (PStr "bad request") /\
  error (advance r) = Some (KeyError "type") /\
  error (advance r) <> Some (ChatError (PStr "bad request")).
Proof.
  repeat split; discriminate.
Qed.

(** ** Waiting for the end *)

(** C3: [wait_until_done] calls [__next__] as long as the status is
    pending, which takes at most one call per remaining pull and one more;
    with the reader [r'] so reached it returns [final_answer] if the status
    is resolved, and otherwise raises the stored error, or the generic
    [Exception] if no error is stored. *)
Theorem wait_until_done_spec (r : Message) :
  exists k,
    let r' := advance_n k r in
    (k <= S (List.length (g r)))%nat /\
    (forall j, (j < k)%nat -> msg_status (advance_n j r) = MSGSTATUS_PENDING) /\
    msg_status r' <> MSGSTATUS_PENDING /\
    (msg_status r = MSGSTATUS_PENDING ->
     msg_status r' = MSGSTATUS_RESOLVED \/ msg_status r' = MSGSTATUS_REJECTED) /\
    forall fuel, (k <= fuel)%nat ->
      wait_until_done fuel r =
        Some (if msg_status r' =? MSGSTATUS_RESOLVED then Ok (final_answer r')
              else match error r' with
                   | Some e => Raise e
                   | None => Raise (Exception no_error_message)
                   end,
              r').
Proof.
  destruct (wait_loop_runs (S (List.length (g r))) r (Nat.lt_succ_diag_r _))
    as (k & Hk & Hpend & Hterm & Hrun).
  exists k. cbv zeta.
  split; [exact Hk|]. split; [exact Hpend|]. split; [exact Hterm|]. split.
  - intros Hp. destruct k as [|k]; [now elim Hterm|].
    rewrite advance_n_succ_r in *.
    assert (Hpk : msg_status (advance_n k r) = 0) by (apply Hpend; lia).
    destruct (next_pending_spec _ Hpk) as (v & r1 & E & _ & _ & Hs & _).
    unfold advance in *. rewrite E in *. simpl in *.
    destruct Hs as [Hs|[Hs|[Hs _]]]; [now elim Hterm|now right|now left].
  - intros fuel Hf. unfold wait_until_done. rewrite (Hrun fuel Hf).
    unfold conclude, bind, gets, raise, done.
    destruct (msg_status (advance_n k r) =? MSGSTATUS_RESOLVED); [reflexivity|].
    now destruct (error (advance_n k r)).
Qed.

Lemma wait_until_done_spec_witness :
  exists k,
    let r := new_Message [Yield ev_status; Yield ev_final] false false in
    (k <= 3)%nat /\
    wait_until_done 3 r =
      Some (if msg_status (advance_n k r) =? MSGSTATUS_RESOLVED
            then Ok (final_answer (advance_n k r))
            else match error (advance_n k r) with
                 | Some e => Raise e
                 | None => Raise (Exception no_error_message)
                 end,
            advance_n k r).
Proof.
  destruct (wait_until_done_spec
              (new_Message [Yield ev_status; Yield ev_final] false false))
    as (k & Hk & _ & _ & _ & Hrun).
  exists k. split; [exact Hk|]. apply Hrun. exact Hk.
Defined.

(** ** What a loop over the reader sees *)

(** C9, as amended: with [_stream_yield_all] off, a call of [__next__]
    that returns gives [None] unless the pulled event is of type [stream];
    so a loop over a reader whose producer has no [stream] event ends and
    sees [None] at every turn, never an event. *)
Theorem non_stream_events_surface_none (r : Message) :
  _stream_yield_all r = false ->
  (forall v r', __next__ r = (Ok v, r') ->
     v = PNone \/ (is_stream v = true /\ exists rest, g r = Yield v :: rest)) /\
  ((forall a, In (Yield a) (g r) -> is_stream a = false) ->
   exists vs r',
     iterate (turns r) r = Some (vs, StopIteration, r') /\
     Forall (fun v => v = PNone) vs).
Proof.
  intros Hy. split.
  - intros v r' E.
    destruct (Z.eq_dec (msg_status r) 0) as [Hp|Ht].
    + destruct (next_pending_spec r Hp)
        as (v1 & r1 & E1 & _ & _ & _ & _ & _ & Hv).
      rewrite E in E1. inversion E1; subst v1 r1.
      destruct Hv as [Hv|[Hin [Hs|Hs]]]; [now left|congruence|right].
      now split.
    + rewrite (next_terminal r Ht) in E. discriminate.
  - intros Hns.
    destruct (iterate_runs (S (List.length (g r))) r (turns r))
      as (vs & r' & E); [lia|unfold turns; lia|].
    exists vs, r'. split; [exact E|].
    apply iterate_values in E. eapply Forall_impl; [|exact E].
    intros v [Hv|[Hin [Hs|Hs]]]; [exact Hv|congruence|].
    apply Hns in Hin. congruence.
Qed.

Lemma non_stream_events_surface_none_witness :
  let r := new_Message [Yield ev_status; Yield ev_final] false false in
  exists vs r',
    iterate (turns r) r = Some (vs, StopIteration, r') /\
    Forall (fun v => v = PNone) vs.
Proof.
  refine (proj2 (non_stream_events_surface_none
            (new_Message [Yield ev_status; Yield ev_final] false false)
            eq_refl) _).
  intros a [H|[H|[]]]; inversion H; reflexivity.
Defined.

(** C9, as stated, fails: with [_stream_yield_all] off and a producer that
    yields a [status] event and then a [finalAnswer] event, a loop over the
    reader does not see an empty sequence; it sees two elements, both
    [None]. *)
Lemma status_then_final_surfaces_two_elements :
  let r := new_Message [Yield ev_status; Yield ev_final] false false in
  _stream_yield_all r = false /\
  is_stream ev_status = false /\ is_stream ev_final = false /\
  surfaced (turns r) r = Some [PNone; PNone] /\
  surfaced (turns r) r <> Some [].
Proof.
  repeat split; discriminate.
Qed.

(** ** Exhaustion of the producer *)

(** Without a final answer in the producer, a run of calls on pending
    readers can only end rejected, with an error stored. *)
Lemma no_final_run : forall k r,
  msg_status r = MSGSTATUS_PENDING ->
  (forall a, In (Yield a) (g r) -> is_final a = false) ->
  (forall j, (j < k)%nat -> msg_status (advance_n j r) = MSGSTATUS_PENDING) ->
  msg_status (advance_n k r) <> MSGSTATUS_PENDING ->
  msg_status (advance_n k r) = MSGSTATUS_REJECTED /\
  error (advance_n k r) <> None.
Proof.
  induction k as [|k IH]; intros r Hp Hnf Hpend Hterm; [now elim Hterm|].
  destruct (next_pending_spec r Hp)
    as (v & r1 & E & Hg & _ & Hs & _ & Herr & _).
  assert (Ha : advance r = r1) by (unfold advance; now rewrite E).
  simpl in *. rewrite Ha in *.
  assert (Hs1 : msg_status r1 = MSGSTATUS_PENDING \/
                msg_status r1 = MSGSTATUS_REJECTED).
  { destruct Hs as [Hs|[Hs|[_ (a & rest & Hga & Hfa)]]]; [now left|now right|].
    rewrite (Hnf a) in Hfa; [discriminate|]. rewrite Hga. now left. }
  destruct k as [|k].
  - simpl in *. destruct Hs1 as [Hs1|Hs1]; [now elim Hterm|].
    split; [exact Hs1|now apply Herr].
  - apply IH.
    + specialize (Hpend 1%nat). simpl in Hpend. rewrite Ha in Hpend.
      apply Hpend. lia.
    + intros a Hin. apply Hnf. rewrite Hg in Hin.
      destruct (g r); [destruct Hin|now right].
    + intros j Hj. specialize (Hpend (S j)). simpl in Hpend.
      rewrite Ha in Hpend. apply Hpend. lia.
    + exact Hterm.
Qed.

(** C10: when the producer is used up while the reader is pending, the
    call stores the [StopIteration] of the pull and rejects the reader,
    and [wait_until_done] raises that [StopIteration]; more generally a
    producer without a [finalAnswer] event leaves the reader rejected once
    it is driven to the end, and [wait_until_done] ends by raising the
    stored error. *)
Theorem exhaustion_rejects (r : Message) :
  msg_status r = MSGSTATUS_PENDING ->
  (g r = [] ->
   let r' := set_msg_status MSGSTATUS_REJECTED
               (set_error (Some StopIteration) r) in
   __next__ r = (Ok PNone, r') /\
   forall fuel,
     wait_until_done fuel r' = Some (Raise StopIteration, r') /\
     wait_until_done (S fuel) r = Some (Raise StopIteration, r')) /\
  ((forall a, In (Yield a) (g r) -> is_final a = false) ->
   exists e r',
     msg_status r' = MSGSTATUS_REJECTED /\ error r' = Some e /\
     forall fuel, (S (List.length (g r)) <= fuel)%nat ->
       wait_until_done fuel r = Some (Raise e, r')).
Proof.
  intros Hp. split.
  - intros Hg r'.
    assert (E : __next__ r = (Ok PNone, r')).
    { rewrite (next_pending r Hp).
      unfold try_except, try_body, next_g, bind. now rewrite Hg. }
    split; [exact E|]. intros fuel.
    assert (Hw : forall f, wait_until_done f r' = Some (Raise StopIteration, r'))
      by now apply conclude_rejected.
    split; [apply Hw|].
    specialize (Hw fuel). unfold wait_until_done in *.
    now rewrite (wait_loop_pending r fuel PNone r' Hp E).
  - intros Hnf.
    destruct (wait_loop_runs (S (List.length (g r))) r (Nat.lt_succ_diag_r _))
      as (k & Hk & Hpend & Hterm & Hrun).
    destruct (no_final_run k r Hp Hnf Hpend Hterm) as [Hs He].
    destruct (error (advance_n k r)) as [e|] eqn:Herr; [|now elim He].
    exists e, (advance_n k r).
    split; [exact Hs|]. split; [exact Herr|].
    intros fuel Hf. unfold wait_until_done. rewrite Hrun by lia.
    unfold conclude, bind, gets, raise, done. rewrite Hs. simpl.
    now rewrite Herr.
Qed.

Lemma exhaustion_rejects_witness :
  let r := new_Message [] false false in
  let r' := set_msg_status MSGSTATUS_REJECTED
              (set_error (Some StopIteration) r) in
  __next__ r = (Ok PNone, r') /\
  wait_until_done 1 r = Some (Raise StopIteration, r').
Proof.
  destruct (proj1 (exhaustion_rejects (new_Message [] false false) eq_refl)
              eq_refl) as [E Hw].
  split; [exact E|]. exact (proj2 (Hw 0%nat)).
Defined.

(** ** Scenarios of the specification, run on the code *)

(** Scenario A: a final answer alone. *)
Example scenario_final_answer :
  let r := new_Message [Yield ev_final] false false in
  exists r', wait_until_done (turns r) r = Some (Ok (PStr "hello"), r') /\
             done r' = MSGSTATUS_RESOLVED.
Proof. eexists. split; reflexivity. Qed.

(** Scenario B: sources, then a final answer. *)
Example scenario_sources_then_final :
  let r := new_Message [Yield ev_web; Yield ev_final] false true in
  exists r', wait_until_done (turns r) r = Some (Ok (PStr "hello"), r') /\
             web_search_sources r' =
               [mkWebSearchSource (PStr "T") (PStr "L") (PStr "H")].
Proof. eexists. split; reflexivity. Qed.

(** Scenario C: an overload payload without ["type"] is rejected, but by
    the [KeyError] of line 68; with a ["type"] entry the marker is found. *)
Example scenario_overloaded :
  let untyped := PDict [("error", PStr "overloaded - Model is overloaded")] in
  let r := new_Message [Yield untyped] false false in
  msg_status (advance r) = MSGSTATUS_REJECTED /\
  error (advance r) = Some (KeyError "type") /\
  error (advance (new_Message [Yield ev_typed_overload] false false)) =
    Some (ModelOverloadedError overload_message).
Proof. repeat split. Qed.

(** ** One call, case by case *)

Lemma next_on_event r a rest :
  msg_status r = 0 -> g r = Yield a :: rest ->
  __next__ r =
    try_except
      (t <- lift (getitem a "type") ;;
       dispatch a t ;;;
       y <- gets _stream_yield_all ;;
       if y || eq_str t MSGTYPE_STREAM then ret a else ret PNone)
      handler (set_g rest r).
Proof.
  intros Hp Hg. rewrite (next_pending r Hp).
  unfold try_except, try_body, next_g.
  unfold bind at 1. now rewrite Hg.
Qed.

Lemma known_type_false t :
  eq_str t MSGTYPE_STREAM = false -> eq_str t MSGTYPE_STATUS = false ->
  eq_str t MSGTYPE_FINAL = false -> eq_str t MSGTYPE_WEB = false ->
  known_type t = false.
Proof. intros H1 H2 H3 H4. unfold known_type. now rewrite H1, H2, H3, H4. Qed.

Lemma dispatch_cases a t r :
  dispatched a t r (fst (dispatch a t r)) (snd (dispatch a t r)).
Proof.
  unfold dispatch.
  destruct (eq_str t MSGTYPE_STREAM) eqn:H1; [now constructor|].
  destruct (eq_str t MSGTYPE_STATUS) eqn:H2; [now constructor|].
  destruct (eq_str t MSGTYPE_FINAL) eqn:H3.
  { unfold bind, lift, modify.
    destruct (getitem a "text") as [text|e] eqn:Ht; simpl.
    - now apply dispatched_final.
    - now apply dispatched_final_fail. }
  destruct (eq_str t MSGTYPE_WEB) eqn:H4.
  { destruct (py_contains a "sources") eqn:Hc; [|now apply dispatched_web_skip].
    unfold bind, lift, modify.
    destruct (getitem a "sources") as [srcs|e];
      [|now apply dispatched_web].
    destruct (py_iter srcs) as [items|e];
      [|now apply dispatched_web].
    destruct (for_each items append_source
                (set_web_search_sources [] r)) as [res r1] eqn:E.
    apply for_each_append_frame in E. simpl. rewrite E.
    replace (set_web_search_sources (web_search_sources r1)
               (set_web_search_sources [] r))
      with (set_web_search_sources (web_search_sources r1) r)
      by now destruct r.
    now apply dispatched_web. }
  pose proof (known_type_false t H1 H2 H3 H4) as Hk.
  destruct (contains overload_marker (str a)) eqn:Hm.
  { now apply dispatched_overload. }
  destruct (py_contains a "error") eqn:He.
  { unfold bind, lift, modify.
    destruct (getitem a "error") as [x|e] eqn:Hx; simpl.
    - now apply dispatched_error.
    - exfalso. destruct a; try discriminate.
      unfold py_contains, has_key in He. simpl in Hx.
      destruct (lookup "error" d); discriminate. }
  now apply dispatched_unknown.
Qed.

(** What every branch of the dispatch leaves alone. *)
Lemma dispatched_config a t r res r1 :
  dispatched a t r res r1 ->
  g r1 = g r /\ _stream_yield_all r1 = _stream_yield_all r /\
  web_search r1 = web_search r.
Proof. intros H; destruct r; inversion H; subst; simpl; auto. Qed.

(** One call on a pending reader, by what the producer hands out. *)
Lemma next_pending_cases r :
  msg_status r = 0 ->
  match g r with
  | [] => __next__ r = (Ok PNone, reject StopIteration r)
  | Throw e :: rest => __next__ r = (Ok PNone, reject e (set_g rest r))
  | Yield a :: rest =>
      match getitem a "type" with
      | Raise e => __next__ r = (Ok PNone, reject e (set_g rest r))
      | Ok t =>
          exists res r1,
            dispatched a t (set_g rest r) res r1 /\
            __next__ r =
              match res with
              | Ok _ => (Ok (if _stream_yield_all r || eq_str t MSGTYPE_STREAM
                             then a else PNone), r1)
              | Raise e => (Ok PNone, reject e r1)
              end
      end
  end.
Proof.
  intros Hp. destruct (g r) as [|[a|e] rest] eqn:Hg.
  - rewrite (next_pending r Hp).
    unfold try_except, try_body, next_g, bind. now rewrite Hg.
  - rewrite (next_on_event r a rest Hp Hg).
    unfold try_except. unfold bind at 1, lift at 1.
    destruct (getitem a "type") as [t|e] eqn:Ht; [|reflexivity].
    pose proof (dispatch_cases a t (set_g rest r)) as Hd.
    unfold bind at 1.
    destruct (dispatch a t (set_g rest r)) as [[[]|e] r1]; simpl in Hd.
    + exists (Ok tt), r1. split; [exact Hd|].
      destruct (dispatched_config _ _ _ _ _ Hd) as (_ & Hy & _).
      simpl in Hy. unfold bind, gets, ret. rewrite Hy.
      now destruct (_stream_yield_all r || eq_str t MSGTYPE_STREAM).
    + exists (Raise e), r1. split; [exact Hd|reflexivity].
  - rewrite (next_pending r Hp).
    unfold try_except, try_body, next_g, bind. now rewrite Hg.
Qed.

(** ** The final answer *)

Lemma conclude_resolved r :
  msg_status r = MSGSTATUS_RESOLVED ->
  forall fuel, wait_until_done fuel r = Some (Ok (final_answer r), r).
Proof.
  intros Hs fuel. unfold wait_until_done.
  rewrite wait_loop_terminal by (rewrite Hs; discriminate).
  unfold conclude, bind, gets, done. now rewrite Hs.
Qed.

(** X1: a pulled [finalAnswer] event with a ["text"] entry stores that
    entry as [final_answer] and resolves the reader, touching nothing else;
    it is handed to the caller only if [_stream_yield_all] is on.
    [wait_until_done] then returns the text, whatever the producer still
    holds. *)
Theorem final_answer_event_resolves (r : Message) (d : list (string * pyval))
    (text : pyval) (rest : list pull) :
  msg_status r = MSGSTATUS_PENDING ->
  g r = Yield (PDict d) :: rest ->
  lookup "type" d = Some (PStr MSGTYPE_FINAL) ->
  lookup "text" d = Some text ->
  let r' := set_msg_status MSGSTATUS_RESOLVED
              (set_final_answer text (set_g rest r)) in
  __next__ r = (Ok (if _stream_yield_all r then PDict d else PNone), r') /\
  forall fuel, wait_until_done (S fuel) r = Some (Ok text, r').
Proof.
  intros Hp Hg Ht Htext r'.
  assert (E : __next__ r =
              (Ok (if _stream_yield_all r then PDict d else PNone), r')).
  { rewrite (next_on_event r _ rest Hp Hg).
    unfold try_except. unfold bind at 1, lift at 1. simpl getitem. rewrite Ht.
    unfold bind at 1. unfold dispatch.
    change (eq_str (PStr MSGTYPE_FINAL) MSGTYPE_STREAM) with false.
    change (eq_str (PStr MSGTYPE_FINAL) MSGTYPE_STATUS) with false.
    change (eq_str (PStr MSGTYPE_FINAL) MSGTYPE_FINAL) with true.
    cbv iota. unfold bind, lift, modify, gets, ret. simpl getitem.
    rewrite Htext. simpl. rewrite orb_false_r.
    now destruct (_stream_yield_all r). }
  split; [exact E|]. intros fuel.
  unfold wait_until_done.
  rewrite (wait_loop_pending r fuel _ r' Hp E).
  rewrite wait_loop_terminal by discriminate.
  reflexivity.
Qed.

Lemma final_answer_event_resolves_witness :
  let r := new_Message [Yield ev_final; Yield ev_stream] true false in
  __next__ r =
    (Ok ev_final,
     set_msg_status MSGSTATUS_RESOLVED
       (set_final_answer (PStr "hello") (set_g [Yield ev_stream] r))) /\
  wait_until_done 1 r =
    Some (Ok (PStr "hello"),
          set_msg_status MSGSTATUS_RESOLVED
            (set_final_answer (PStr "hello") (set_g [Yield ev_stream] r))).
Proof.
  pose proof (final_answer_event_resolves
                (new_Message [Yield ev_final; Yield ev_stream] true false)
                [("type", PStr "finalAnswer"); ("text", PStr "hello")]
                (PStr "hello") [Yield ev_stream]
                eq_refl eq_refl eq_refl eq_refl) as [E Hw].
  split; [exact E|exact (Hw 0%nat)].
Defined.

(** X2: a pulled [finalAnswer] event without a ["text"] entry rejects the
    reader with [KeyError('text')]; [final_answer] keeps its value and the
    call returns [None] even when [_stream_yield_all] is on. *)
Theorem final_answer_without_text_rejects (r : Message)
    (d : list (string * pyval)) (rest : list pull) :
  msg_status r = MSGSTATUS_PENDING ->
  g r = Yield (PDict d) :: rest ->
  lookup "type" d = Some (PStr MSGTYPE_FINAL) ->
  lookup "text" d = None ->
  __next__ r = (Ok PNone, reject (KeyError "text") (set_g rest r)) /\
  final_answer (advance r) = final_answer r.
Proof.
  intros Hp Hg Ht Htext.
  assert (E : __next__ r = (Ok PNone, reject (KeyError "text") (set_g rest r))).
  { rewrite (next_on_event r _ rest Hp Hg).
    unfold try_except. unfold bind at 1, lift at 1. simpl getitem. rewrite Ht.
    unfold bind at 1. unfold dispatch.
    change (eq_str (PStr MSGTYPE_FINAL) MSGTYPE_STREAM) with false.
    change (eq_str (PStr MSGTYPE_FINAL) MSGTYPE_STATUS) with false.
    change (eq_str (PStr MSGTYPE_FINAL) MSGTYPE_FINAL) with true.
    cbv iota. unfold bind, lift, modify, gets, ret. simpl getitem.
    rewrite Htext. reflexivity. }
  split; [exact E|]. unfold advance. now rewrite E.
Qed.

Lemma final_answer_without_text_rejects_witness :
  let r := new_Message [Yield ev_final_no_text] true false in
  __next__ r = (Ok PNone, reject (KeyError "text") (set_g [] r)) /\
  final_answer (advance r) = final_answer r.
Proof.
  exact (final_answer_without_text_rejects
           (new_Message [Yield ev_final_no_text] true false)
           [("type", PStr "finalAnswer")] [] eq_refl eq_refl eq_refl eq_refl).
Defined.

(** ** Events that change nothing *)

(** X3: a pulled [status] event, and a pulled [webSearch] event without a
    ["sources"] entry, change no field of the reader (the sources of an
    earlier event stay); only the producer moves on. *)
Theorem heartbeat_changes_nothing (r : Message) (d : list (string * pyval))
    (rest : list pull) :
  msg_status r = MSGSTATUS_PENDING ->
  g r = Yield (PDict d) :: rest ->
  lookup "type" d = Some (PStr MSGTYPE_STATUS) \/
  (lookup "type" d = Some (PStr MSGTYPE_WEB) /\ lookup "sources" d = None) ->
  __next__ r = (Ok (if _stream_yield_all r then PDict d else PNone),
                set_g rest r).
Proof.
  intros Hp Hg [Ht|[Ht Hs]];
    rewrite (next_on_event r _ rest Hp Hg);
    unfold try_except; unfold bind at 1, lift at 1; simpl getitem; rewrite Ht;
    unfold bind at 1; unfold dispatch.
  - change (eq_str (PStr MSGTYPE_STATUS) MSGTYPE_STREAM) with false.
    change (eq_str (PStr MSGTYPE_STATUS) MSGTYPE_STATUS) with true.
    cbv iota. unfold bind, gets, ret. simpl. rewrite orb_false_r.
    now destruct (_stream_yield_all r).
  - change (eq_str (PStr MSGTYPE_WEB) MSGTYPE_STREAM) with false.
    change (eq_str (PStr MSGTYPE_WEB) MSGTYPE_STATUS) with false.
    change (eq_str (PStr MSGTYPE_WEB) MSGTYPE_FINAL) with false.
    change (eq_str (PStr MSGTYPE_WEB) MSGTYPE_WEB) with true.
    cbv iota. unfold py_contains, has_key. rewrite Hs.
    unfold bind, gets, ret. simpl. rewrite orb_false_r.
    now destruct (_stream_yield_all r).
Qed.

Lemma heartbeat_changes_nothing_witness :
  let old := mkWebSearchSource (PStr "old") (PStr "o") (PStr "o") in
  let r := set_web_search_sources [old]
             (new_Message [Yield ev_web_no_sources] false true) in
  __next__ r = (Ok PNone, set_g [] r).
Proof.
  exact (heartbeat_changes_nothing
           (set_web_search_sources
              [mkWebSearchSource (PStr "old") (PStr "o") (PStr "o")]
              (new_Message [Yield ev_web_no_sources] false true))
           [("type", PStr "webSearch")] [] eq_refl eq_refl
           (or_intror (conj eq_refl eq_refl))).
Defined.

(** ** Events without a discriminant *)

(** X4: a pulled value from which ["type"] cannot be read rejects the
    reader, with [KeyError('type')] for a dict and [TypeError] for anything
    else; nothing of its content is looked at (an ["error"] entry or the
    overload marker play no part) and the call returns [None]. *)
Theorem event_without_type_rejects (r : Message) (a : pyval) (e : exn)
    (rest : list pull) :
  msg_status r = MSGSTATUS_PENDING ->
  g r = Yield a :: rest ->
  getitem a "type" = Raise e ->
  __next__ r = (Ok PNone, reject e (set_g rest r)) /\
  e = match a with PDict _ => KeyError "type" | _ => TypeError end.
Proof.
  intros Hp Hg Ht. split.
  - rewrite (next_on_event r a rest Hp Hg).
    unfold try_except. unfold bind at 1, lift at 1. now rewrite Ht.
  - destruct a; simpl in Ht; try (now inversion Ht).
    destruct (lookup "type" d); now inversion Ht.
Qed.

Lemma event_without_type_rejects_witness :
  let a := PDict [("error", PStr "x: Model is overloaded")] in
  let r := new_Message [Yield a] true false in
  __next__ r = (Ok PNone, reject (KeyError "type") (set_g [] r)).
Proof.
  exact (proj1 (event_without_type_rejects
                  (new_Message
                     [Yield (PDict [("error", PStr "x: Model is overloaded")])]
                     true false)
                  _ (KeyError "type") [] eq_refl eq_refl eq_refl)).
Defined.

(** ** Broken source lists *)

Lemma append_source_ok w x r :
  entry_of w x ->
  append_source x r =
    (Ok tt, set_web_search_sources (web_search_sources r ++ [w]) r).
Proof.
  intros (Ht & Hl & Hh). unfold append_source, bind, lift, modify.
  rewrite Ht, Hl, Hh. now destruct w.
Qed.

Lemma append_source_fault x e r :
  entry_fault x = Some e -> append_source x r = (Raise e, r).
Proof.
  unfold entry_fault, append_source, bind, lift, modify.
  destruct (getitem x "title"); [|now intros [= ->]].
  destruct (getitem x "link"); [|now intros [= ->]].
  destruct (getitem x "hostname"); [discriminate|now intros [= ->]].
Qed.

Lemma for_each_append_fault : forall good ws,
  Forall2 entry_of ws good ->
  forall bad more e r,
    entry_fault bad = Some e ->
    for_each (good ++ bad :: more) append_source r =
      (Raise e, set_web_search_sources (web_search_sources r ++ ws) r).
Proof.
  intros good ws H.
  induction H as [|w x ws good Hw _ IH]; intros bad more e r Hf.
  - simpl. unfold bind. rewrite (append_source_fault bad e r Hf).
    rewrite app_nil_r. now rewrite set_sources_eta.
  - simpl. unfold bind at 1. rewrite (append_source_ok w x r Hw).
    rewrite (IH bad more e _ Hf). simpl.
    rewrite <- app_assoc. now destruct r.
Qed.

(** X5: when an entry of the ["sources"] list of a pulled [webSearch] event
    lacks its title, link or hostname, the reader is rejected with the
    exception of that lookup; [web_search_sources] is then the entries
    parsed before the broken one, the sources held before are gone, the
    entries after it are not read, and the call returns [None]. *)
Theorem broken_source_keeps_parsed_prefix (r : Message)
    (d : list (string * pyval)) (good more : list pyval) (bad : pyval)
    (ws : list WebSearchSource) (e : exn) (rest : list pull) :
  msg_status r = MSGSTATUS_PENDING ->
  g r = Yield (PDict d) :: rest ->
  lookup "type" d = Some (PStr MSGTYPE_WEB) ->
  lookup "sources" d = Some (PList (good ++ bad :: more)) ->
  Forall2 entry_of ws good ->
  entry_fault bad = Some e ->
  __next__ r =
    (Ok PNone, reject e (set_web_search_sources ws (set_g rest r))).
Proof.
  intros Hp Hg Ht Hs Hws Hf.
  rewrite (next_on_event r _ rest Hp Hg).
  unfold try_except. unfold bind at 1, lift at 1. simpl getitem. rewrite Ht.
  unfold bind at 1. unfold dispatch.
  change (eq_str (PStr MSGTYPE_WEB) MSGTYPE_STREAM) with false.
  change (eq_str (PStr MSGTYPE_WEB) MSGTYPE_STATUS) with false.
  change (eq_str (PStr MSGTYPE_WEB) MSGTYPE_FINAL) with false.
  change (eq_str (PStr MSGTYPE_WEB) MSGTYPE_WEB) with true.
  cbv iota. unfold py_contains, has_key. rewrite Hs.
  unfold bind at 1, modify at 1.
  unfold bind at 1, lift at 1. simpl getitem. rewrite Hs.
  unfold bind at 1, lift at 1. simpl py_iter. cbv iota.
  rewrite (for_each_append_fault good ws Hws bad more e _ Hf).
  simpl. now destruct r.
Qed.

Lemma broken_source_keeps_parsed_prefix_witness :
  let old := mkWebSearchSource (PStr "old") (PStr "o") (PStr "o") in
  let r := set_web_search_sources [old]
             (new_Message [Yield ev_web_broken] true true) in
  __next__ r =
    (Ok PNone,
     reject (KeyError "hostname")
       (set_web_search_sources
          [mkWebSearchSource (PStr "T") (PStr "L") (PStr "H")] (set_g [] r))).
Proof.
  refine (broken_source_keeps_parsed_prefix
            (set_web_search_sources
               [mkWebSearchSource (PStr "old") (PStr "o") (PStr "o")]
               (new_Message [Yield ev_web_broken] true true))
            _ [PDict [("title", PStr "T"); ("link", PStr "L");
                      ("hostname", PStr "H")]]
            [PDict [("title", PStr "V"); ("link", PStr "N");
                    ("hostname", PStr "I")]]
            (PDict [("title", PStr "U"); ("link", PStr "M")])
            [mkWebSearchSource (PStr "T") (PStr "L") (PStr "H")]
            (KeyError "hostname") []
            eq_refl eq_refl eq_refl eq_refl _ eq_refl).
  repeat constructor.
Defined.

(** X6: when the ["sources"] entry of a pulled [webSearch] event is not
    iterable ([None], a boolean or a number), the reader has already
    dropped the sources it held: it is rejected with [TypeError] and
    [web_search_sources] is empty. *)
Theorem sources_not_iterable_clears (r : Message) (d : list (string * pyval))
    (s : pyval) (e : exn) (rest : list pull) :
  msg_status r = MSGSTATUS_PENDING ->
  g r = Yield (PDict d) :: rest ->
  lookup "type" d = Some (PStr MSGTYPE_WEB) ->
  lookup "sources" d = Some s ->
  py_iter s = Raise e ->
  __next__ r =
    (Ok PNone, reject TypeError (set_web_search_sources [] (set_g rest r))) /\
  e = TypeError.
Proof.
  intros Hp Hg Ht Hs Hi.
  assert (He : e = TypeError)
    by (destruct s; simpl in Hi; now inversion Hi).
  split; [|exact He]. subst e.
  rewrite (next_on_event r _ rest Hp Hg).
  unfold try_except. unfold bind at 1, lift at 1. simpl getitem. rewrite Ht.
  unfold bind at 1. unfold dispatch.
  change (eq_str (PStr MSGTYPE_WEB) MSGTYPE_STREAM) with false.
  change (eq_str (PStr MSGTYPE_WEB) MSGTYPE_STATUS) with false.
  change (eq_str (PStr MSGTYPE_WEB) MSGTYPE_FINAL) with false.
  change (eq_str (PStr MSGTYPE_WEB) MSGTYPE_WEB) with true.
  cbv iota. unfold py_contains, has_key. rewrite Hs.
  unfold bind at 1, modify at 1.
  unfold bind at 1, lift at 1. simpl getitem. rewrite Hs.
  unfold bind at 1, lift at 1. rewrite Hi.
  simpl. now destruct r.
Qed.

Lemma sources_not_iterable_clears_witness :
  let old := mkWebSearchSource (PStr "old") (PStr "o") (PStr "o") in
  let r := set_web_search_sources [old]
             (new_Message [Yield ev_web_null_sources] false true) in
  __next__ r =
    (Ok PNone, reject TypeError (set_web_search_sources [] (set_g [] r))).
Proof.
  exact (proj1 (sources_not_iterable_clears
                  (set_web_search_sources
                     [mkWebSearchSource (PStr "old") (PStr "o") (PStr "o")]
                     (new_Message [Yield ev_web_null_sources] false true))
                  _ PNone TypeError [] eq_refl eq_refl eq_refl eq_refl eq_refl)).
Defined.

(** ** Which call changes which field *)

Lemma has_type_getitem a t s :
  getitem a "type" = Ok t -> has_type s a = eq_str t s.
Proof. intros H. unfold has_type. now rewrite H. Qed.

Lemma dispatched_fields a t r res r1 :
  dispatched a t r res r1 ->
  (final_answer r1 = final_answer r \/
   (eq_str t MSGTYPE_FINAL = true /\ res = Ok tt /\
    msg_status r1 = MSGSTATUS_RESOLVED)) /\
  (web_search_done r1 = web_search_done r \/
   (eq_str t MSGTYPE_STREAM = true /\ web_search_done r1 = true)) /\
  (web_search_sources r1 = web_search_sources r \/
   (eq_str t MSGTYPE_WEB = true /\ py_contains a "sources" = true)).
Proof.
  intros H; destruct r; inversion H; subst; simpl; auto 6.
Qed.

Lemma reject_fields e r :
  final_answer (reject e r) = final_answer r /\
  web_search_done (reject e r) = web_search_done r /\
  web_search_sources (reject e r) = web_search_sources r /\
  web_search (reject e r) = web_search r.
Proof. now destruct r. Qed.

(** The fields a call on a pending reader may change, and on which event. *)
Lemma advance_fields r :
  msg_status r = 0 ->
  web_search (advance r) = web_search r /\
  (final_answer (advance r) = final_answer r \/
   (msg_status (advance r) = MSGSTATUS_RESOLVED /\
    exists a rest, g r = Yield a :: rest /\ is_final a = true)) /\
  (web_search_done (advance r) = web_search_done r \/
   (web_search_done (advance r) = true /\
    exists a rest, g r = Yield a :: rest /\ is_stream a = true)) /\
  (web_search_sources (advance r) = web_search_sources r \/
   exists a rest, g r = Yield a :: rest /\
                  has_type MSGTYPE_WEB a = true /\
                  py_contains a "sources" = true).
Proof.
  intros Hp. pose proof (next_pending_cases r Hp) as H. unfold advance.
  destruct (g r) as [|[a|e] rest] eqn:Hg.
  - rewrite H. simpl. destruct r; simpl; auto.
  - destruct (getitem a "type") as [t|e] eqn:Ht.
    + destruct H as (res & r1 & Hd & E). rewrite E.
      destruct (dispatched_config _ _ _ _ _ Hd) as (_ & _ & Hw).
      destruct (dispatched_fields _ _ _ _ _ Hd) as (Hf & Hs & Hx).
      simpl in Hw, Hf, Hs, Hx.
      destruct res as [[]|e]; simpl.
      * split; [exact Hw|]. split; [|split].
        -- destruct Hf as [Hf|(Hf & _ & Hr)]; [now left|right].
           split; [exact Hr|]. exists a, rest. unfold is_final, is_stream.
           rewrite (has_type_getitem a t _ Ht). now split.
        -- destruct Hs as [Hs|[Hs Hs']]; [now left|right].
           split; [exact Hs'|]. exists a, rest. unfold is_final, is_stream.
           rewrite (has_type_getitem a t _ Ht). now split.
        -- destruct Hx as [Hx|[Hx Hx']]; [now left|right].
           exists a, rest.
           rewrite (has_type_getitem a t _ Ht). now repeat split.
      * destruct (reject_fields e r1) as (Ef & Es & Ex & Ew).
        rewrite ?Ef, ?Es, ?Ex, ?Ew.
        split; [exact Hw|]. split; [|split].
        -- destruct Hf as [Hf|(_ & Hf & _)]; [now left|discriminate].
        -- destruct Hs as [Hs|[Hs Hs']]; [now left|right].
           split; [exact Hs'|]. exists a, rest. unfold is_final, is_stream.
           rewrite (has_type_getitem a t _ Ht). now split.
        -- destruct Hx as [Hx|[Hx Hx']]; [now left|right].
           exists a, rest.
           rewrite (has_type_getitem a t _ Ht). now repeat split.
    + rewrite H. simpl. destruct r; simpl; auto.
  - rewrite H. simpl. destruct r; simpl; auto.
Qed.

Lemma advance_terminal r : msg_status r <> 0 -> advance r = r.
Proof. intros H. unfold advance. now rewrite (next_terminal r H). Qed.

(** X7: a call changes [final_answer] only on a [finalAnswer] event (and
    then resolves the reader), [web_search_done] only on a [stream] event,
    [web_search_sources] only on a [webSearch] event that has a
    ["sources"] entry; [web_search] and [_stream_yield_all] never change.
    This holds for every reader and every producer, also when the call
    ends in the handler. *)
Theorem fields_change_only_on_their_event (r : Message) :
  (final_answer (advance r) <> final_answer r ->
   msg_status (advance r) = MSGSTATUS_RESOLVED /\
   exists a rest, g r = Yield a :: rest /\ is_final a = true) /\
  (web_search_done (advance r) <> web_search_done r ->
   web_search_done (advance r) = true /\
   exists a rest, g r = Yield a :: rest /\ is_stream a = true) /\
  (web_search_sources (advance r) <> web_search_sources r ->
   exists a rest, g r = Yield a :: rest /\
                  has_type MSGTYPE_WEB a = true /\
                  py_contains a "sources" = true) /\
  web_search (advance r) = web_search r /\
  _stream_yield_all (advance r) = _stream_yield_all r.
Proof.
  destruct (Z.eq_dec (msg_status r) 0) as [Hp|Ht].
  - destruct (advance_fields r Hp) as (Hw & Hf & Hs & Hx).
    destruct (next_pending_spec r Hp) as (v & r1 & E & _ & Hy & _).
    assert (Ha : advance r = r1) by (unfold advance; now rewrite E).
    split; [|split; [|split; [|split]]].
    + intros H. destruct Hf as [Hf|Hf]; [now elim H|exact Hf].
    + intros H. destruct Hs as [Hs|Hs]; [now elim H|exact Hs].
    + intros H. destruct Hx as [Hx|Hx]; [now elim H|exact Hx].
    + exact Hw.
    + now rewrite Ha.
  - rewrite (advance_terminal r Ht).
    split; [|split; [|split; [|split]]];
      try reflexivity; intros H; now elim H.
Qed.

Lemma fields_change_only_on_their_event_witness :
  let r := new_Message [Yield ev_final] false false in
  msg_status (advance r) = MSGSTATUS_RESOLVED /\
  exists a rest, g r = Yield a :: rest /\ is_final a = true.
Proof.
  apply (proj1 (fields_change_only_on_their_event
                  (new_Message [Yield ev_final] false false))).
  discriminate.
Defined.

(** ** The producer is read in order *)

Lemma advance_g r :
  g (advance r) = if truthy (msg_status r) then g r else tl (g r).
Proof.
  destruct (Z.eq_dec (msg_status r) 0) as [Hp|Ht].
  - destruct (next_pending_spec r Hp) as (v & r1 & E & Hg & _).
    unfold advance. rewrite E. simpl.
    apply truthy_false_iff in Hp. now rewrite Hp.
  - rewrite (advance_terminal r Ht).
    apply truthy_true_iff in Ht. now rewrite Ht.
Qed.

Lemma tl_skipn {A : Type} : forall n (l : list A),
  tl (skipn n l) = skipn (S n) l.
Proof.
  induction n as [|n IH]; intros [|x l]; try reflexivity.
  simpl skipn at 1. rewrite IH. reflexivity.
Qed.

Lemma advance_n_pending_before : forall n r,
  msg_status (advance_n (S n) r) = 0 -> msg_status (advance_n n r) = 0.
Proof.
  intros n r H. rewrite advance_n_succ_r in H.
  destruct (Z.eq_dec (msg_status (advance_n n r)) 0) as [Hp|Ht]; [exact Hp|].
  now rewrite (advance_terminal _ Ht) in H.
Qed.

(** X8: the reader never reads ahead and never puts anything back: after
    [n] calls the producer has lost a prefix of at most [n] pulls, and as
    long as the reader is still pending after them it has lost exactly the
    first [n]. *)
Theorem producer_read_in_order (n : nat) (r : Message) :
  (exists k, (k <= n)%nat /\ g (advance_n n r) = skipn k (g r)) /\
  (msg_status (advance_n n r) = MSGSTATUS_PENDING ->
   g (advance_n n r) = skipn n (g r)).
Proof.
  unfold MSGSTATUS_PENDING. split.
  - induction n as [|n (k & Hk & IH)]; [now exists 0%nat|].
    rewrite advance_n_succ_r, advance_g, IH.
    destruct (truthy (msg_status (advance_n n r))).
    + exists k. split; [lia|reflexivity].
    + exists (S k). split; [lia|apply tl_skipn].
  - induction n as [|n IH]; intros Hp; [reflexivity|].
    pose proof (advance_n_pending_before n r Hp) as Hq.
    rewrite advance_n_succ_r, advance_g, (IH Hq).
    apply truthy_false_iff in Hq. rewrite Hq. apply tl_skipn.
Qed.

Lemma producer_read_in_order_witness :
  let r := new_Message [Yield ev_status; Yield ev_stream; Yield ev_final]
             false false in
  g (advance_n 2 r) = [Yield ev_final].
Proof.
  apply (proj2 (producer_read_in_order 2
                  (new_Message [Yield ev_status; Yield ev_stream; Yield ev_final]
                     false false))).
  reflexivity.
Defined.

(** ** What a run of calls keeps true *)

Lemma healthy_since_start r :
  msg_status r = MSGSTATUS_PENDING -> healthy_since r r.
Proof.
  intros Hp. split; [now left|]. split; [|reflexivity].
  rewrite Hp. discriminate.
Qed.

Lemma healthy_since_advance r0 r :
  healthy_since r0 r -> healthy_since r0 (advance r).
Proof.
  intros (Hst & Herr & Hfa).
  destruct (Z.eq_dec (msg_status r) 0) as [Hp|Ht].
  - destruct (next_pending_spec r Hp)
      as (v & r1 & E & _ & _ & Hs & _ & He & _).
    destruct (advance_fields r Hp) as (_ & Hf & _).
    assert (Ha : advance r = r1) by (unfold advance; now rewrite E).
    rewrite Ha in *. split; [|split].
    + destruct Hs as [Hs|[Hs|[Hs _]]]; auto.
    + exact He.
    + intros Hn. destruct Hf as [Hf|[Hf _]]; [|now elim Hn].
      rewrite Hf. apply Hfa.
      unfold MSGSTATUS_RESOLVED. rewrite Hp. discriminate.
  - rewrite (advance_terminal r Ht). now repeat split.
Qed.

Lemma healthy_since_advance_n r0 : forall n r,
  healthy_since r0 r -> healthy_since r0 (advance_n n r).
Proof.
  induction n as [|n IH]; intros r H; [exact H|].
  simpl. now apply IH, healthy_since_advance.
Qed.

(** X9: start from any pending reader and call [__next__] any number of
    times: the status is then pending, resolved or rejected; if it is
    rejected the reader holds an error; and unless it is resolved
    [final_answer] is what it was at the start, so the answer is written
    only together with the resolution. *)
Theorem pending_run_invariant (n : nat) (r : Message) :
  msg_status r = MSGSTATUS_PENDING ->
  (msg_status (advance_n n r) = MSGSTATUS_PENDING \/
   msg_status (advance_n n r) = MSGSTATUS_RESOLVED \/
   msg_status (advance_n n r) = MSGSTATUS_REJECTED) /\
  (msg_status (advance_n n r) = MSGSTATUS_REJECTED ->
   error (advance_n n r) <> None) /\
  (msg_status (advance_n n r) <> MSGSTATUS_RESOLVED ->
   final_answer (advance_n n r) = final_answer r).
Proof.
  intros Hp. change (healthy_since r (advance_n n r)).
  induction n as [|n IH].
  - now apply healthy_since_start.
  - rewrite advance_n_succ_r. now apply healthy_since_advance.
Qed.

Lemma pending_run_invariant_witness :
  let r := mkMessage [Yield ev_unknown; Throw transport_failure] false true
             [] (PStr "kept") false MSGSTATUS_PENDING None in
  msg_status (advance_n 2 r) = MSGSTATUS_REJECTED /\
  error (advance_n 2 r) <> None /\
  final_answer (advance_n 2 r) = PStr "kept".
Proof.
  pose proof (pending_run_invariant 2
                (mkMessage [Yield ev_unknown; Throw transport_failure]
                   false true [] (PStr "kept") false MSGSTATUS_PENDING None)
                eq_refl) as (_ & He & Hf).
  split; [reflexivity|]. split; [apply He; reflexivity|].
  apply Hf. discriminate.
Defined.

(** ** More on waiting *)

Lemma wait_loop_sound : forall fuel r x r',
  wait_loop fuel r = Some (x, r') ->
  x = Ok tt /\ msg_status r' <> 0 /\ exists k, r' = advance_n k r.
Proof.
  induction fuel as [|fuel IH]; intros r x r' H;
    destruct (Z.eq_dec (msg_status r) 0) as [Hp|Ht].
  - simpl in H. unfold done in H.
    apply truthy_false_iff in Hp. rewrite Hp in H. discriminate.
  - rewrite (wait_loop_terminal r 0 Ht) in H. inversion H; subst.
    split; [reflexivity|]. split; [exact Ht|now exists 0%nat].
  - destruct (next_pending_spec r Hp) as (v & r1 & E & _).
    rewrite (wait_loop_pending r fuel v r1 Hp E) in H.
    destruct (IH _ _ _ H) as (Hx & Hs & k & Hk).
    split; [exact Hx|]. split; [exact Hs|].
    exists (S k). simpl. unfold advance. now rewrite E.
  - rewrite (wait_loop_terminal r (S fuel) Ht) in H. inversion H; subst.
    split; [reflexivity|]. split; [exact Ht|now exists 0%nat].
Qed.

Lemma conclude_reader r : snd (conclude r) = r.
Proof.
  unfold conclude, bind, gets, raise, done.
  destruct (msg_status r =? MSGSTATUS_RESOLVED); [reflexivity|].
  now destruct (error r).
Qed.

Lemma wait_until_done_sound fuel r res r' :
  wait_until_done fuel r = Some (res, r') ->
  msg_status r' <> 0 /\ (exists k, r' = advance_n k r) /\
  conclude r' = (res, r').
Proof.
  unfold wait_until_done. intros H.
  destruct (wait_loop fuel r) as [[x r1]|] eqn:E; [|discriminate].
  destruct (wait_loop_sound _ _ _ _ E) as (-> & Hs & Hk).
  inversion H as [Hc].
  assert (r1 = r') by (rewrite <- (conclude_reader r1); now rewrite Hc).
  subst r1. auto.
Qed.

(** X10: called on a pending reader, [wait_until_done] either returns
    [final_answer], with the reader resolved, or raises the error the
    reader holds, with the reader rejected; its own
    [Exception("Rejected but no error captured!")] is not raised then. *)
Theorem wait_until_done_raises_stored_error (fuel : nat) (r : Message)
    (res : result pyval) (r' : Message) :
  msg_status r = MSGSTATUS_PENDING ->
  wait_until_done fuel r = Some (res, r') ->
  (msg_status r' = MSGSTATUS_RESOLVED /\ res = Ok (final_answer r')) \/
  (msg_status r' = MSGSTATUS_REJECTED /\
   exists e, error r' = Some e /\ res = Raise e).
Proof.
  intros Hp H.
  destruct (wait_until_done_sound _ _ _ _ H) as (Hs & (k & Hk) & Hc).
  assert (Hh : healthy_since r r')
    by (subst r'; now apply healthy_since_advance_n, healthy_since_start).
  destruct Hh as (Hst & Herr & _).
  unfold conclude, bind, gets, raise, done in Hc.
  destruct Hst as [Hst|[Hst|Hst]].
  - now elim Hs.
  - left. split; [exact Hst|]. rewrite Hst in Hc. now inversion Hc.
  - right. split; [exact Hst|]. rewrite Hst in Hc. simpl in Hc.
    destruct (error r') as [e|]; [|now elim (Herr Hst)].
    exists e. split; [reflexivity|]. now inversion Hc.
Qed.

Lemma wait_until_done_raises_stored_error_witness :
  let r := mkMessage [Yield ev_unknown] false false [] (PStr EmptyString)
             false MSGSTATUS_PENDING None in
  exists r',
    wait_until_done 2 r = Some (Raise StopIteration, r') /\
    msg_status r' = MSGSTATUS_REJECTED /\ error r' = Some StopIteration.
Proof.
  eexists. split; [reflexivity|].
  destruct (wait_until_done_raises_stored_error 2
              (mkMessage [Yield ev_unknown] false false [] (PStr EmptyString)
                 false MSGSTATUS_PENDING None)
              _ _ eq_refl eq_refl)
    as [[_ Hres]|(Hs & e & He & Hres)]; [discriminate|].
  split; [exact Hs|]. inversion Hres. subst e. exact He.
Defined.

(** X11: [wait_until_done] can be called again: once it has answered, any
    later call gives the same answer (the same text, or the same
    exception) without another pull and leaves the reader as it is. *)
Theorem wait_until_done_idempotent (fuel : nat) (r : Message)
    (res : result pyval) (r' : Message) :
  wait_until_done fuel r = Some (res, r') ->
  forall fuel', wait_until_done fuel' r' = Some (res, r').
Proof.
  intros H fuel'.
  destruct (wait_until_done_sound _ _ _ _ H) as (Hs & _ & Hc).
  unfold wait_until_done. rewrite (wait_loop_terminal r' fuel' Hs).
  now rewrite Hc.
Qed.

Lemma wait_until_done_idempotent_witness :
  let r := new_Message [Yield ev_status; Yield ev_final; Yield ev_stream]
             false false in
  let r' := advance_n 2 r in
  wait_until_done 0 r' = Some (Ok (PStr "hello"), r').
Proof.
  exact (wait_until_done_idempotent 2
           (new_Message [Yield ev_status; Yield ev_final; Yield ev_stream]
              false false)
           _ _ eq_refl 0%nat).
Defined.

(** ** Looping over the reader *)

Lemma iterate_sound : forall fuel r vs e r',
  iterate fuel r = Some (vs, e, r') ->
  e = StopIteration /\ msg_status r' <> 0 /\
  (List.length vs <= S (List.length (g r)))%nat /\
  forall fuel', (List.length vs <= fuel')%nat ->
    wait_loop fuel' r = Some (Ok tt, r').
Proof.
  induction fuel as [|fuel IH]; intros r vs e r' H; [discriminate|].
  simpl in H.
  destruct (Z.eq_dec (msg_status r) 0) as [Hp|Ht].
  - destruct (next_pending_spec r Hp)
      as (v & r1 & E & Hg & _ & _ & Hex & _).
    rewrite E in H.
    destruct (iterate fuel r1) as [[[vs1 e1] r1']|] eqn:E1; [|discriminate].
    inversion H; subst.
    destruct (IH _ _ _ _ E1) as (He & Hs & Hlen & Hw).
    split; [exact He|]. split; [exact Hs|]. split.
    + simpl. destruct (g r) as [|p rest] eqn:Hgr.
      * specialize (Hex eq_refl). unfold MSGSTATUS_REJECTED in Hex.
        destruct fuel as [|fuel]; [discriminate|].
        rewrite iterate_terminal in E1 by lia.
        inversion E1; subst. simpl. lia.
      * rewrite Hg in Hlen. simpl in *. lia.
    + intros [|fuel'] Hf; simpl in Hf; [lia|].
      rewrite (wait_loop_pending r fuel' v r1 Hp E).
      apply Hw. lia.
  - rewrite (next_terminal r Ht) in H. inversion H; subst.
    split; [reflexivity|]. split; [exact Ht|]. split; [simpl; lia|].
    intros fuel' _. now apply wait_loop_terminal.
Qed.

(** X12: a [for] loop over the reader never raises.  When it has run to
    its end the reader is not pending, the loop body has run at most once
    per pull the producer had and once more, and [wait_until_done] now
    answers at once with what it would have answered without the loop. *)
Theorem for_loop_then_wait (fuel : nat) (r : Message) (vs : list pyval)
    (e : exn) (r' : Message) :
  iterate fuel r = Some (vs, e, r') ->
  e = StopIteration /\
  msg_status r' <> MSGSTATUS_PENDING /\
  (List.length vs <= S (List.length (g r)))%nat /\
  forall fuel', (List.length vs <= fuel')%nat ->
    wait_until_done fuel' r = wait_until_done 0 r'.
Proof.
  intros H. destruct (iterate_sound _ _ _ _ _ H) as (He & Hs & Hlen & Hw).
  split; [exact He|]. split; [exact Hs|]. split; [exact Hlen|].
  intros fuel' Hf. unfold wait_until_done.
  now rewrite (Hw fuel' Hf), (wait_loop_terminal r' 0 Hs).
Qed.

Lemma for_loop_then_wait_witness :
  let r := new_Message [Yield ev_stream; Yield ev_final] false false in
  let r' := advance_n 2 r in
  wait_until_done 2 r = wait_until_done 0 r'.
Proof.
  refine (proj2 (proj2 (proj2 (for_loop_then_wait 3
            (new_Message [Yield ev_stream; Yield ev_final] false false)
            [ev_stream; PNone] StopIteration _ eq_refl))) 2%nat _).
  simpl. lia.
Defined.

(** X13: with [_stream_yield_all] on, a call on a pending reader returns
    [None] only when an exception was caught, and then the reader is
    rejected and holds that exception; otherwise it returns the pulled
    event, which is a dict. *)
Theorem none_means_rejected_when_yielding_all (r : Message) (v : pyval)
    (r' : Message) :
  _stream_yield_all r = true ->
  msg_status r = MSGSTATUS_PENDING ->
  __next__ r = (Ok v, r') ->
  (v = PNone /\ msg_status r' = MSGSTATUS_REJECTED /\ error r' <> None) \/
  (exists d rest, v = PDict d /\ g r = Yield v :: rest).
Proof.
  intros Hy Hp E. pose proof (next_pending_cases r Hp) as H.
  destruct (g r) as [|[a|e] rest] eqn:Hg.
  - rewrite E in H. inversion H; subst. left. now repeat split.
  - destruct (getitem a "type") as [t|e] eqn:Ht.
    + destruct H as ([[]|e] & r1 & Hd & E1); rewrite E in E1;
        inversion E1; subst.
      * right. rewrite Hy. simpl.
        destruct a; try discriminate. now exists d, rest.
      * left. now repeat split.
    + rewrite E in H. inversion H; subst. left. now repeat split.
  - rewrite E in H. inversion H; subst. left. now repeat split.
Qed.

Lemma none_means_rejected_when_yielding_all_witness :
  let r := new_Message [Yield ev_final_no_text] true false in
  msg_status (advance r) = MSGSTATUS_REJECTED /\ error (advance r) <> None.
Proof.
  destruct (none_means_rejected_when_yielding_all
              (new_Message [Yield ev_final_no_text] true false)
              PNone _ eq_refl eq_refl eq_refl)
    as [(_ & Hs & He)|(d & rest & Hv & _)]; [|discriminate].
  split; [exact Hs|exact He].
Defined.

(** ** The search flag *)

(** X14: no call of [__next__] sets [web_search_done] back: once
    [done_search()] is true it stays true through any number of calls,
    whatever the producer hands out. *)
Theorem done_search_never_reset (n : nat) (r : Message) :
  done_search r = true -> done_search (advance_n n r) = true.
Proof.
  unfold done_search. revert r.
  induction n as [|n IH]; intros r H; [exact H|].
  simpl. apply IH.
  destruct (Z.eq_dec (msg_status r) 0) as [Hp|Ht].
  - destruct (advance_fields r Hp) as (_ & _ & [Hs|[Hs _]] & _).
    + now rewrite Hs.
    + exact Hs.
  - now rewrite (advance_terminal r Ht).
Qed.

Lemma done_search_never_reset_witness :
  let r := mkMessage [Yield ev_stream; Yield ev_web; Throw transport_failure]
             false true [] (PStr EmptyString) false MSGSTATUS_PENDING None in
  done_search (advance_n 3 r) = true.
Proof.
  apply (done_search_never_reset 2
           (advance (mkMessage
                       [Yield ev_stream; Yield ev_web; Throw transport_failure]
                       false true [] (PStr EmptyString) false
                       MSGSTATUS_PENDING None))).
  reflexivity.
Defined.

(** ** The overload marker *)

Lemma prefix_app p : forall s, String.prefix p (p ++ s) = true.
Proof.
  induction p as [|c p IH]; intros s; simpl; [now destruct s|].
  destruct (ascii_dec c c) as [_|Hn]; [apply IH|now elim Hn].
Qed.

Lemma prefix_split : forall p s,
  String.prefix p s = true -> exists s', s = p ++ s'.
Proof.
  induction p as [|c p IH]; intros s H; [now exists s|].
  destruct s as [|c' s]; simpl in H; [discriminate|].
  destruct (ascii_dec c c') as [<-|_]; [|discriminate].
  destruct (IH s H) as [s' ->]. now exists s'.
Qed.

Lemma prefix_append : forall p x y,
  String.prefix p x = true -> String.prefix p (x ++ y) = true.
Proof.
  induction p as [|c p IH]; intros x y H.
  - now destruct (x ++ y).
  - destruct x as [|c' x]; simpl in H; [discriminate|].
    simpl. destruct (ascii_dec c c'); [now apply IH|discriminate].
Qed.

Lemma contains_prefix n s :
  String.prefix n s = true -> contains n s = true.
Proof. intros H. destruct s; cbn [contains]; now rewrite H. Qed.

Lemma contains_cons n c s :
  contains n s = true -> contains n (String c s) = true.
Proof. intros H. simpl. rewrite H. apply orb_true_r. Qed.

Lemma contains_append_r n : forall x y,
  contains n y = true -> contains n (x ++ y) = true.
Proof.
  induction x as [|c x IH]; intros y H; [exact H|].
  simpl append. apply contains_cons. now apply IH.
Qed.

Lemma contains_append_l n : forall x y,
  contains n x = true -> contains n (x ++ y) = true.
Proof.
  induction x as [|c x IH]; intros y H.
  - simpl in H. rewrite orb_false_r in H.
    destruct (prefix_split n EmptyString H) as [s' Hs].
    destruct n; [|discriminate]. now destruct y.
  - simpl in H. apply orb_true_iff in H. destruct H as [H|H].
    + change (String c x ++ y) with (String c (x ++ y)).
      pose proof (prefix_append n (String c x) y H) as Hp.
      change (String c x ++ y) with (String c (x ++ y)) in Hp.
      change (contains n (String c (x ++ y)))
        with (String.prefix n (String c (x ++ y)) || contains n (x ++ y)).
      now rewrite Hp.
    + simpl append. apply contains_cons. now apply IH.
Qed.

(** Escaping leaves the marker readable: it has no quote, backslash or
    control character. *)
Lemma contains_marker_escape q :
  q = squote \/ q = dquote ->
  forall s, contains overload_marker s = true ->
            contains overload_marker (escape q s) = true.
Proof.
  intros Hq. induction s as [|c s IH]; intros H; [discriminate|].
  change (contains overload_marker (String c s))
    with (String.prefix overload_marker (String c s) ||
          contains overload_marker s) in H.
  apply orb_true_iff in H. destruct H as [H|H].
  - destruct (prefix_split _ _ H) as [s' Hs]. rewrite Hs.
    assert (He : escape q (overload_marker ++ s') =
                 overload_marker ++ escape q s')
      by (destruct Hq as [-> | ->]; reflexivity).
    rewrite He. apply contains_prefix, prefix_app.
  - simpl escape. apply contains_append_r. now apply IH.
Qed.

Lemma contains_marker_repr_str s :
  contains overload_marker s = true ->
  contains overload_marker (repr_str s) = true.
Proof.
  intros H. unfold repr_str.
  destruct (contains_char squote s && negb (contains_char dquote s));
    apply contains_cons, contains_append_l, contains_marker_escape; auto.
Qed.

Lemma contains_join n sep x : forall l,
  In x l -> contains n x = true -> contains n (join sep l) = true.
Proof.
  induction l as [|y l IH]; intros Hin H; [destruct Hin|].
  destruct Hin as [->|Hin].
  - destruct l; [exact H|]. now apply contains_append_l.
  - destruct l as [|z l]; [destruct Hin|].
    change (join sep (y :: z :: l)) with (y ++ sep ++ join sep (z :: l)).
    apply contains_append_r, contains_append_r. now apply IH.
Qed.

Lemma contains_marker_dict d k s :
  In (k, PStr s) d -> contains overload_marker s = true ->
  contains overload_marker (str (PDict d)) = true.
Proof.
  intros Hin H.
  change (str (PDict d))
    with ("{" ++ join ", "
                   (map (fun kv : string * pyval =>
                           let (k0, x) := kv in repr_str k0 ++ ": " ++ repr x)
                        d) ++ "}").
  apply contains_append_r, contains_append_l.
  apply (contains_join _ _ (repr_str k ++ ": " ++ repr (PStr s))).
  - apply (in_map (fun kv : string * pyval =>
                     let (k0, x) := kv in repr_str k0 ++ ": " ++ repr x)
                  d (k, PStr s) Hin).
  - apply contains_append_r, contains_append_r.
    now apply contains_marker_repr_str.
Qed.

(** X15: the overload test reads the whole event: when any text entry of a
    pulled event of unknown type contains ["Model is overloaded"], the
    reader is rejected with [ModelOverloadedError], also when the event
    has an ["error"] entry of its own, which is then not kept. *)
Theorem overload_marker_in_any_entry (r : Message) (d : list (string * pyval))
    (t : pyval) (k s : string) (rest : list pull) :
  msg_status r = MSGSTATUS_PENDING ->
  g r = Yield (PDict d) :: rest ->
  lookup "type" d = Some t ->
  known_type t = false ->
  In (k, PStr s) d ->
  contains overload_marker s = true ->
  __next__ r =
    (Ok (if _stream_yield_all r then PDict d else PNone),
     reject (ModelOverloadedError overload_message) (set_g rest r)).
Proof.
  intros Hp Hg Ht Hk Hin Hs.
  pose proof (contains_marker_dict d k s Hin Hs) as Hm.
  unfold known_type in Hk.
  apply orb_false_iff in Hk. destruct Hk as [Hk Hweb].
  apply orb_false_iff in Hk. destruct Hk as [Hk Hfinal].
  apply orb_false_iff in Hk. destruct Hk as [Hstream Hstatus].
  rewrite (next_on_event r _ rest Hp Hg).
  unfold try_except. unfold bind at 1, lift at 1. simpl getitem. rewrite Ht.
  unfold bind at 1. unfold dispatch.
  rewrite Hstream, Hstatus, Hfinal, Hweb, Hm.
  unfold bind, modify, gets, ret. simpl. rewrite orb_false_r.
  now destruct (_stream_yield_all r).
Qed.

Lemma overload_marker_in_any_entry_witness :
  let r := new_Message [Yield ev_marker_in_token] false false in
  __next__ r =
    (Ok PNone, reject (ModelOverloadedError overload_message) (set_g [] r)).
Proof.
  refine (overload_marker_in_any_entry
            (new_Message [Yield ev_marker_in_token] false false)
            _ (PStr "token") "text" "the reply was: Model is overloaded" []
            eq_refl eq_refl eq_refl eq_refl _ eq_refl).
  right. right. left. reflexivity.
Defined.

(** ** Streamed tokens in a loop *)

Lemma iterate_of_terminal fuel r vs e r' :
  msg_status r <> 0 -> iterate fuel r = Some (vs, e, r') -> vs = [].
Proof.
  intros Ht H. destruct fuel as [|fuel]; [discriminate|].
  rewrite (iterate_terminal r fuel Ht) in H. now inversion H.
Qed.

Lemma reject_terminal e r : msg_status (reject e r) <> 0.
Proof. discriminate. Qed.

Lemma dispatched_raise_not_stream a t r e r1 :
  dispatched a t r (Raise e) r1 -> eq_str t MSGTYPE_STREAM = false.
Proof.
  intros H; inversion H; subst;
    match goal with
    | Ht : eq_str t _ = true |- _ => apply eq_str_true in Ht; now subst t
    end.
Qed.

(** X16: with [_stream_yield_all] off, a loop over the reader hands the
    caller every [stream] event among the pulls it made, each once and in
    the order of the producer: no token is lost, repeated or reordered. *)
Theorem stream_events_surfaced_in_order (fuel : nat) (r : Message)
    (vs : list pyval) (e : exn) (r' : Message) :
  _stream_yield_all r = false ->
  iterate fuel r = Some (vs, e, r') ->
  filter is_stream vs =
    filter is_stream (yielded (firstn (List.length vs) (g r))).
Proof.
  revert r vs e r'.
  induction fuel as [|fuel IH]; intros r vs e r' Hy H; [discriminate|].
  simpl in H.
  destruct (Z.eq_dec (msg_status r) 0) as [Hp|Ht].
  - pose proof (next_pending_cases r Hp) as Hc.
    destruct (__next__ r) as [[v|e0] r1] eqn:E;
      [|destruct (next_pending_spec r Hp) as (? & ? & E' & _);
        rewrite E in E'; discriminate].
    destruct (iterate fuel r1) as [[[vs1 e1] r1']|] eqn:E1; [|discriminate].
    inversion H; subst vs e r'. clear H.
    destruct (g r) as [|[a|e0] rest] eqn:Hg.
    + inversion Hc; subst.
      now rewrite (iterate_of_terminal _ _ _ _ _ (reject_terminal _ _) E1).
    + destruct (getitem a "type") as [t|e0] eqn:Ht.
      * destruct Hc as (res & r2 & Hd & Hc).
        destruct (dispatched_config _ _ _ _ _ Hd) as (Hg2 & Hy2 & _).
        simpl in Hg2, Hy2.
        assert (Hsa : is_stream a = eq_str t MSGTYPE_STREAM)
          by (unfold is_stream; now apply has_type_getitem).
        destruct res as [[]|e0]; inversion Hc; subst v r1; clear Hc.
        -- rewrite Hy in *. simpl orb.
           specialize (IH r2 vs1 e1 r1' Hy2 E1). rewrite Hg2 in IH.
           simpl. rewrite Hsa, <- IH.
           now destruct (eq_str t MSGTYPE_STREAM) eqn:Hst; simpl;
             rewrite ?Hsa, ?Hst.
        -- rewrite (iterate_of_terminal _ _ _ _ _ (reject_terminal _ _) E1).
           simpl. rewrite Hsa.
           now rewrite (dispatched_raise_not_stream _ _ _ _ _ Hd).
      * inversion Hc; subst.
        rewrite (iterate_of_terminal _ _ _ _ _ (reject_terminal _ _) E1).
        simpl. unfold is_stream, has_type. now rewrite Ht.
    + inversion Hc; subst.
      now rewrite (iterate_of_terminal _ _ _ _ _ (reject_terminal _ _) E1).
  - rewrite (next_terminal r Ht) in H. now inversion H.
Qed.

Lemma stream_events_surfaced_in_order_witness :
  let r := new_Message [Yield ev_status; Yield ev_stream; Yield ev_final;
                        Yield ev_stream] false false in
  filter is_stream [PNone; ev_stream; PNone] =
    filter is_stream (yielded (firstn 3 (g r))).
Proof.
  exact (stream_events_surfaced_in_order 4
           (new_Message [Yield ev_status; Yield ev_stream; Yield ev_final;
                         Yield ev_stream] false false)
           [PNone; ev_stream; PNone] StopIteration _ eq_refl eq_refl).
Defined.

(** X17: a loop over the reader ends: with a producer of [n] pulls it
    makes at most [n + 2] calls of [__next__], the last of which raises
    [StopIteration]. *)
Theorem for_loop_ends (r : Message) (fuel : nat) :
  (turns r <= fuel)%nat ->
  exists vs r',
    iterate fuel r = Some (vs, StopIteration, r') /\
    (List.length vs < turns r)%nat.
Proof.
  intros Hf.
  destruct (iterate_runs (S (List.length (g r))) r fuel) as (vs & r' & E);
    [lia|exact Hf|].
  exists vs, r'. split; [exact E|].
  destruct (iterate_sound _ _ _ _ _ E) as (_ & _ & Hlen & _).
  unfold turns. lia.
Qed.

Lemma for_loop_ends_witness :
  let r := new_Message [Yield ev_unknown] true false in
  exists vs r',
    iterate 3 r = Some (vs, StopIteration, r') /\ (List.length vs < 3)%nat.
Proof.
  apply (for_loop_ends (new_Message [Yield ev_unknown] true false) 3).
  unfold turns. simpl. lia.
Defined.

(** ** An error without a rejection *)

Lemma next_final_event r d text rest :
  msg_status r = MSGSTATUS_PENDING ->
  g r = Yield (PDict d) :: rest ->
  lookup "type" d = Some (PStr MSGTYPE_FINAL) ->
  lookup "text" d = Some text ->
  __next__ r =
    (Ok (if _stream_yield_all r then PDict d else PNone),
     set_msg_status MSGSTATUS_RESOLVED (set_final_answer text (set_g rest r))).
Proof.
  intros Hp Hg Ht Htext.
  rewrite (next_on_event r _ rest Hp Hg).
  unfold try_except. unfold bind at 1, lift at 1. simpl getitem. rewrite Ht.
  unfold bind at 1. unfold dispatch.
  change (eq_str (PStr MSGTYPE_FINAL) MSGTYPE_STREAM) with false.
  change (eq_str (PStr MSGTYPE_FINAL) MSGTYPE_STATUS) with false.
  change (eq_str (PStr MSGTYPE_FINAL) MSGTYPE_FINAL) with true.
  cbv iota. unfold bind, lift, modify, gets, ret. simpl getitem.
  rewrite Htext. simpl. rewrite orb_false_r.
  now destruct (_stream_yield_all r).
Qed.

(** C7: a pulled event of an unknown type, without the overload marker and
    without an ["error"] entry, leaves the reader holding an error while
    its status is still pending (line 96 stores the error and sets no
    status); if a [finalAnswer] event follows, the reader is resolved with
    the error still held.  Either way [error] is not [None] and the
    status is not rejected. *)
Theorem unknown_event_stores_error_while_pending (r : Message)
    (d : list (string * pyval)) (t : pyval) (rest : list pull) :
  msg_status r = MSGSTATUS_PENDING ->
  g r = Yield (PDict d) :: rest ->
  lookup "type" d = Some t ->
  known_type t = false ->
  contains overload_marker (str (PDict d)) = false ->
  lookup "error" d = None ->
  (error (advance r) <> None /\
   msg_status (advance r) = MSGSTATUS_PENDING) /\
  (forall d2 text rest2,
     rest = Yield (PDict d2) :: rest2 ->
     lookup "type" d2 = Some (PStr MSGTYPE_FINAL) ->
     lookup "text" d2 = Some text ->
     error (advance_n 2 r) <> None /\
     msg_status (advance_n 2 r) = MSGSTATUS_RESOLVED).
Proof.
  intros Hp Hg Ht Hk Hm He.
  destruct (next_fallback_event r d t rest Hp Hg Ht Hk) as [E _].
  cbv zeta in E. rewrite Hm, He in E.
  assert (Ha : advance r =
               set_error
                 (Some (ChatError (PStr (unknown_prefix ++ str (PDict d)))))
                 (set_g rest r))
    by (unfold advance; now rewrite E).
  split.
  - rewrite Ha. split; [simpl; discriminate|exact Hp].
  - intros d2 text rest2 Hrest Ht2 Htext.
    change (advance_n 2 r) with (advance (advance r)). rewrite Ha.
    unfold advance.
    rewrite (next_final_event _ d2 text rest2);
      [|exact Hp|exact Hrest|exact Ht2|exact Htext].
    split; [simpl; discriminate|reflexivity].
Qed.

Lemma unknown_event_stores_error_while_pending_witness :
  let r := mkMessage [Yield ev_unknown; Yield ev_final] false false []
             (PStr EmptyString) true MSGSTATUS_PENDING None in
  error r = None /\
  (error (advance r) <> None /\
   msg_status (advance r) = MSGSTATUS_PENDING) /\
  (error (advance_n 2 r) <> None /\
   msg_status (advance_n 2 r) = MSGSTATUS_RESOLVED).
Proof.
  pose proof (unknown_event_stores_error_while_pending
                (mkMessage [Yield ev_unknown; Yield ev_final] false false []
                   (PStr EmptyString) true MSGSTATUS_PENDING None)
                [("type", PStr "foo")] (PStr "foo") [Yield ev_final]
                eq_refl eq_refl eq_refl eq_refl eq_refl eq_refl) as [Ha Hb].
  split; [reflexivity|]. split; [exact Ha|].
  exact (Hb [("type", PStr "finalAnswer"); ("text", PStr "hello")]
            (PStr "hello") [] eq_refl eq_refl eq_refl).
Defined.
